(** * libuv timers (deps/uv/src/timer.c): a shallow embedding

    The timer scheduler of the event loop: absolute deadlines kept in a
    binary min-heap ordered by (timeout, start_id), the per-iteration expiry
    loop [uv__run_timers], and the poll budget [uv__next_timeout].

    Layout: machine integers, the generic heap, the handle and loop records,
    the functions of timer.c, concrete scenarios; then the lemmas. *)

From Stdlib Require Import ZArith Lia.
From stdpp Require Import base decidable option list functions.

Local Open Scope Z_scope.

(** ** Machine integers *)

(** [uint64_t] values are integers in [0, 2^64); arithmetic wraps. *)
Definition UINT64_MAX : Z := 2 ^ 64 - 1.
Definition wrap64 (z : Z) : Z := z mod 2 ^ 64.
Definition uint64 (z : Z) : Prop := 0 <= z <= UINT64_MAX.

(** [INT_MAX] of <limits.h> for a 32-bit [int]. *)
Definition INT_MAX : Z := 2 ^ 31 - 1.

(** Modelled from the spec: uv-errno.h is not among the sources; the
    invalid-argument condition is reported as a negative result (the value
    of [-EINVAL] on Linux). *)
Definition UV_EINVAL : Z := -22.

(** ** The ordered deadline store (heap-inl.h) *)

Section heap.
Context {A : Type} `{EqDecision A}.
Variable less_than : A -> A -> bool.

(** Modelled from the spec: heap-inl.h is not among the sources.  The
    store is a binary min-heap laid out in an array: the children of slot
    [i] are slots [2i+1] and [2i+2], the minimum sits in slot 0. *)
Definition heap_parent (i : nat) : nat := ((i - 1) / 2)%nat.

(** Modelled from the spec: heap-inl.h is missing; two nodes trade slots
    (the exchange both sift loops are made of). *)
Definition heap_swap (a : list A) (i j : nat) : list A :=
  match a !! i, a !! j with
  | Some x, Some y => <[i := y]> (<[j := x]> a)
  | _, _ => a
  end.

(** Modelled from the spec: [min()] returns the smallest node without
    removing it, or nothing when the structure is empty. *)
Definition heap_min (a : list A) : option A := a !! 0%nat.

(** Modelled from the spec: sift the node in slot [i] toward the root
    while its parent compares greater. *)
Fixpoint sift_up (fuel : nat) (a : list A) (i : nat) : list A :=
  match fuel with
  | O => a
  | S fuel' =>
      if decide (i = 0%nat) then a
      else match a !! i, a !! heap_parent i with
           | Some x, Some p =>
               if less_than x p
               then sift_up fuel' (heap_swap a (heap_parent i) i) (heap_parent i)
               else a
           | _, _ => a
           end
  end.

(** Modelled from the spec: heap-inl.h is missing; the smallest of slot
    [i] and its two children, the left child taking precedence over the
    right one on ties. *)
Definition smallest_of (a : list A) (i : nat) : nat :=
  let s := i in
  let s := match a !! (2 * i + 1)%nat, a !! s with
           | Some c, Some m => if less_than c m then (2 * i + 1)%nat else s
           | _, _ => s
           end in
  match a !! (2 * i + 2)%nat, a !! s with
  | Some c, Some m => if less_than c m then (2 * i + 2)%nat else s
  | _, _ => s
  end.

(** Modelled from the spec: sift the node in slot [i] away from the root
    while a child compares smaller; returns the slot it ends in. *)
Fixpoint sift_down (fuel : nat) (a : list A) (i : nat) : list A * nat :=
  match fuel with
  | O => (a, i)
  | S fuel' =>
      let s := smallest_of a i in
      if decide (s = i) then (a, i)
      else sift_down fuel' (heap_swap a i s) s
  end.

(** Modelled from the spec: [insert] adds the node at the boundary slot
    and restores heap order by sifting it toward the root. *)
Definition heap_insert (a : list A) (x : A) : list A :=
  sift_up (S (length a)) (a ++ [x]) (length a).

(** Modelled from the spec: heap-inl.h is missing; the slot of a node.
    The store reaches it through the linkage embedded in the handle (not
    by search); the array model looks it up, which gives the same slot
    when the node is linked once. *)
Definition heap_slot (a : list A) (x : A) : option nat :=
  fst <$> list_find (λ y, y = x) a.

(** Modelled from the spec: [remove] replaces the node by the boundary
    node (the last slot), and restores order by sifting that node down
    and then up.  Removing a node that is not linked is outside the
    contract; the model leaves the array as it is. *)
Definition heap_remove (a : list A) (x : A) : list A :=
  match heap_slot a x, a !! (length a - 1)%nat with
  | Some pos, Some m =>
      let a' := take (length a - 1) a in
      if decide (pos = (length a - 1)%nat) then a'
      else
        let '(b, q) := sift_down (length a) (<[pos := m]> a') pos in
        sift_up (length a) b q
  | _, _ => a
  end.
End heap.

(** *** Heap order

    [heap_le x y] says that [y] does not compare below [x].  An array is
    heap-ordered when no child compares below its parent; while a node is
    being sifted the edge into (or the edges out of) its slot are exempt,
    and the slots around it are ordered across it. *)
Section heap_order.
Context {A : Type}.
Variable less_than : A -> A -> bool.

Definition heap_le (x y : A) : Prop := less_than y x = false.

Definition child_of (p c : nat) : Prop :=
  c = (2 * p + 1)%nat ∨ c = (2 * p + 2)%nat.

Definition heap_ok_on (R : nat → nat → Prop) (a : list A) : Prop :=
  ∀ p c x y, R p c → a !! p = Some x → a !! c = Some y → heap_le x y.

Definition heap_ok : list A → Prop := heap_ok_on child_of.

Definition across (i p c : nat) : Prop := child_of p i ∧ child_of i c.

Definition heap_ok_up (a : list A) (i : nat) : Prop :=
  heap_ok_on (λ p c, (child_of p c ∧ c ≠ i) ∨ across i p c) a.

Definition heap_ok_down (a : list A) (i : nat) : Prop :=
  heap_ok_on (λ p c, (child_of p c ∧ p ≠ i) ∨ across i p c) a.
End heap_order.

(** ** Handles and the loop *)

(** A handle is identified by its address; a callback by its (non-null)
    function pointer. *)
Definition handle := nat.
Definition cb_id := nat.

(** Modelled from the spec: uv.h, which declares [uv_timer_t], is not
    among the sources; the fields are those timer.c uses, the three
    integers being [uint64_t].  [timer_cb = None] is the null pointer; the
    two flags are the active and closing states of the handle. *)
Record uv_timer_t := mk_timer {
  timer_cb : option cb_id;
  timeout : Z;
  repeat : Z;
  start_id : Z;
  active : bool;
  closing : bool
}.

(** Modelled from the spec: uv.h, which declares [uv_loop_t], is not
    among the sources; this is the part timer.c reads and writes ([time]
    and [timer_counter] are [uint64_t]), together with the memory holding
    the timer handles of the loop. *)
Record uv_loop_t := mk_loop {
  time : Z;
  timer_counter : Z;
  timer_heap : list handle;
  timers : handle -> uv_timer_t
}.

Definition set_timers (m : handle -> uv_timer_t) (l : uv_loop_t) : uv_loop_t :=
  {| time := time l; timer_counter := timer_counter l;
     timer_heap := timer_heap l; timers := m |}.

Definition set_timer_heap (a : list handle) (l : uv_loop_t) : uv_loop_t :=
  {| time := time l; timer_counter := timer_counter l;
     timer_heap := a; timers := timers l |}.

Definition set_timer_counter (c : Z) (l : uv_loop_t) : uv_loop_t :=
  {| time := time l; timer_counter := c;
     timer_heap := timer_heap l; timers := timers l |}.

Definition set_active (b : bool) (t : uv_timer_t) : uv_timer_t :=
  {| timer_cb := timer_cb t; timeout := timeout t; repeat := repeat t;
     start_id := start_id t; active := b; closing := closing t |}.

Definition set_repeat (r : Z) (t : uv_timer_t) : uv_timer_t :=
  {| timer_cb := timer_cb t; timeout := timeout t; repeat := r;
     start_id := start_id t; active := active t; closing := closing t |}.

(** Modelled from the spec: the handle-lifecycle macros of uv-common.h
    are not among the sources; [uv__is_active] reads the active flag. *)
Definition uv__is_active (t : uv_timer_t) : bool := active t.

(** Modelled from the spec: uv-common.h is missing; [uv__is_closing]
    reads the closing flag. *)
Definition uv__is_closing (t : uv_timer_t) : bool := closing t.

(** Modelled from the spec: uv-common.h is missing; [uv__handle_start]
    marks the handle active. *)
Definition uv__handle_start (h : handle) (l : uv_loop_t) : uv_loop_t :=
  set_timers (<[h := set_active true (timers l h)]> (timers l)) l.

(** Modelled from the spec: uv-common.h is missing; [uv__handle_stop]
    marks the handle inactive. *)
Definition uv__handle_stop (h : handle) (l : uv_loop_t) : uv_loop_t :=
  set_timers (<[h := set_active false (timers l h)]> (timers l)) l.

(** Modelled from the spec: uv-common.h is missing; [uv__handle_init]
    leaves the handle inactive and not closing. *)
Definition uv__handle_init (t : uv_timer_t) : uv_timer_t :=
  {| timer_cb := timer_cb t; timeout := timeout t; repeat := repeat t;
     start_id := start_id t; active := false; closing := false |}.

(** ** timer.c *)

Definition timer_less_than (a b : uv_timer_t) : bool :=
  if timeout a <? timeout b then true
  else if timeout b <? timeout a then false
  else start_id a <? start_id b.

(** The comparator on heap nodes: [container_of] takes a node to the
    handle that embeds it. *)
Definition node_less_than (m : handle -> uv_timer_t) (ha hb : handle) : bool :=
  timer_less_than (m ha) (m hb).

Definition uv_timer_init (h : handle) (l : uv_loop_t) : Z * uv_loop_t :=
  let t := uv__handle_init (timers l h) in
  let t := {| timer_cb := None; timeout := 0; repeat := 0;
              start_id := start_id t; active := active t;
              closing := closing t |} in
  (0, set_timers (<[h := t]> (timers l)) l).

Definition uv_timer_stop (h : handle) (l : uv_loop_t) : Z * uv_loop_t :=
  if negb (uv__is_active (timers l h)) then (0, l)
  else
    let l := set_timer_heap
               (heap_remove (node_less_than (timers l)) (timer_heap l) h) l in
    (0, uv__handle_stop h l).

Definition uv_timer_start (h : handle) (cb : option cb_id)
    (timeout0 repeat0 : Z) (l : uv_loop_t) : Z * uv_loop_t :=
  if uv__is_closing (timers l h) || negb (bool_decide (is_Some cb))
  then (UV_EINVAL, l)
  else
    let l := if uv__is_active (timers l h) then snd (uv_timer_stop h l) else l in
    let clamped_timeout := wrap64 (time l + timeout0) in
    let clamped_timeout :=
      if clamped_timeout <? timeout0 then UINT64_MAX else clamped_timeout in
    let t := timers l h in
    let t := {| timer_cb := cb; timeout := clamped_timeout; repeat := repeat0;
                start_id := timer_counter l; active := active t;
                closing := closing t |} in
    let l := set_timer_counter (wrap64 (timer_counter l + 1))
               (set_timers (<[h := t]> (timers l)) l) in
    let l := set_timer_heap
               (heap_insert (node_less_than (timers l)) (timer_heap l) h) l in
    (0, uv__handle_start h l).

Definition uv_timer_again (h : handle) (l : uv_loop_t) : Z * uv_loop_t :=
  match timer_cb (timers l h) with
  | None => (UV_EINVAL, l)
  | Some _ =>
      if negb (repeat (timers l h) =? 0) then
        let l := snd (uv_timer_stop h l) in
        let t := timers l h in
        (0, snd (uv_timer_start h (timer_cb t) (repeat t) (repeat t) l))
      else (0, l)
  end.

Definition uv_timer_set_repeat (h : handle) (repeat0 : Z) (l : uv_loop_t)
    : uv_loop_t :=
  set_timers (<[h := set_repeat repeat0 (timers l h)]> (timers l)) l.

Definition uv_timer_get_repeat (h : handle) (l : uv_loop_t) : Z :=
  repeat (timers l h).

Definition uv_timer_get_due_in (h : handle) (l : uv_loop_t) : Z :=
  if time l >=? timeout (timers l h) then 0
  else wrap64 (timeout (timers l h) - time l).

Definition uv__next_timeout (l : uv_loop_t) : Z :=
  match heap_min (timer_heap l) with
  | None => -1
  | Some h =>
      if timeout (timers l h) <=? time l then 0
      else
        let diff := wrap64 (timeout (timers l h) - time l) in
        let diff := if diff >? INT_MAX then INT_MAX else diff in
        diff
  end.

Definition uv__timer_close (h : handle) (l : uv_loop_t) : uv_loop_t :=
  snd (uv_timer_stop h l).

(** What a call of [uv__run_timers] comes to: it returns, having invoked
    the callbacks of [fired] in that order; or it calls through a null
    [timer_cb]; or the iteration budget of the model is used up. *)
Inductive run_result :=
| Returned (fired : list handle) (l : uv_loop_t)
| NullCall
| OutOfFuel.

Section run.
(** The callback environment: what the function behind a [uv_timer_cb]
    pointer does to the loop when called with a handle. *)
Variable cb_env : cb_id -> handle -> uv_loop_t -> uv_loop_t.

(** One pass through the body of the [for (;;)] loop: [None] when the
    loop breaks, else the handle that fired and the state after its
    callback ([inr]), or a call through a null pointer ([inl]). *)
Definition run_timers_body (l : uv_loop_t)
    : option (unit + handle * uv_loop_t) :=
  match heap_min (timer_heap l) with
  | None => None
  | Some h =>
      if timeout (timers l h) >? time l then None
      else
        let l := snd (uv_timer_stop h l) in
        let l := snd (uv_timer_again h l) in
        match timer_cb (timers l h) with
        | None => Some (inl tt)
        | Some cb => Some (inr (h, cb_env cb h l))
        end
  end.

Fixpoint uv__run_timers (fuel : nat) (l : uv_loop_t) : run_result :=
  match fuel with
  | O => OutOfFuel
  | S fuel' =>
      match run_timers_body l with
      | None => Returned [] l
      | Some (inl _) => NullCall
      | Some (inr (h, l')) =>
          match uv__run_timers fuel' l' with
          | Returned fired l'' => Returned (h :: fired) l''
          | r => r
          end
      end
  end.
End run.

(** Extracting the minimum of the store over and over: each round stops
    the handle at the root. *)
Fixpoint drain_timers (fuel : nat) (l : uv_loop_t) : list handle :=
  match fuel with
  | O => []
  | S fuel' =>
      match heap_min (timer_heap l) with
      | None => []
      | Some h => h :: drain_timers fuel' (snd (uv_timer_stop h l))
      end
  end.

(** The value [uv_timer_start] gives [clamped_timeout], and the handle as
    it leaves it. *)
Definition clamped (now t : Z) : Z :=
  let c := wrap64 (now + t) in if c <? t then UINT64_MAX else c.

Definition armed (c : cb_id) (dl r id : Z) : uv_timer_t :=
  {| timer_cb := Some c; timeout := dl; repeat := r; start_id := id;
     active := true; closing := false |}.

(** The state in which the callback of [h] is called: [h] has been stopped
    and, if it repeats, started again. *)
Definition rearmed (h : handle) (l : uv_loop_t) : uv_loop_t :=
  snd (uv_timer_again h (snd (uv_timer_stop h l))).

(** What [uv__next_timeout] makes of the loop time and the deadline of
    the root. *)
Definition poll_budget (now t : Z) : Z :=
  if t <=? now then 0
  else
    let diff := wrap64 (t - now) in
    if diff >? INT_MAX then INT_MAX else diff.

(** ** Well-formed loops *)

(** The [uint64_t] fields of a handle hold 64-bit values. *)
Definition timer_wf (t : uv_timer_t) : Prop :=
  uint64 (timeout t) ∧ uint64 (repeat t).

(** A handle is linked into the heap exactly when it is active, and at
    most once. *)
Definition linked_ok (l : uv_loop_t) : Prop :=
  NoDup (timer_heap l) ∧
  ∀ h, h ∈ timer_heap l ↔ active (timers l h) = true.

Definition loop_ordered (l : uv_loop_t) : Prop :=
  heap_ok (node_less_than (timers l)) (timer_heap l).

(** The start ids of the linked handles were handed out by the counter and
    differ from one another. *)
Definition ids_ok (l : uv_loop_t) : Prop :=
  (∀ h, h ∈ timer_heap l → start_id (timers l h) < timer_counter l) ∧
  (∀ h k, h ∈ timer_heap l → k ∈ timer_heap l →
          start_id (timers l h) = start_id (timers l k) → h = k).

Definition loop_ok (l : uv_loop_t) : Prop :=
  linked_ok l ∧ loop_ordered l ∧ uint64 (time l) ∧
  (∀ h, timer_wf (timers l h)) ∧
  (∀ h, h ∈ timer_heap l → is_Some (timer_cb (timers l h))).

(** The handles of the heap that are due at the cached loop time. *)
Definition due (l : uv_loop_t) : list handle :=
  filter (λ h, timeout (timers l h) <= time l) (timer_heap l).

(** The deadline [uv_timer_start] computes: the sum, saturated. *)
Definition deadline (now delay : Z) : Z := Z.min (now + delay) UINT64_MAX.

(** Two states of a handle that differ at most in the repeat value (a
    [uint64_t] in both). *)
Definition same_schedule (t t' : uv_timer_t) : Prop :=
  timer_cb t' = timer_cb t ∧ timeout t' = timeout t ∧
  start_id t' = start_id t ∧ active t' = active t ∧
  closing t' = closing t ∧ (uint64 (repeat t) → uint64 (repeat t')).

(** Callbacks that leave the clock and the timers alone: the cached loop
    time, the counter, the heap and the callback, deadline, start id and
    flags of every handle are as before; so they neither refresh the clock
    nor initialise, start, stop, re-arm or close a timer (they may still
    set a repeat value). *)
Definition passive (cb_env : cb_id → handle → uv_loop_t → uv_loop_t) : Prop :=
  ∀ c h l,
    time (cb_env c h l) = time l ∧
    timer_counter (cb_env c h l) = timer_counter l ∧
    timer_heap (cb_env c h l) = timer_heap l ∧
    ∀ k, same_schedule (timers l k) (timers (cb_env c h l) k).

(** Callbacks that, moreover, leave the repeat values alone. *)
Definition quiet (cb_env : cb_id → handle → uv_loop_t → uv_loop_t) : Prop :=
  passive cb_env ∧
  ∀ c h l k, repeat (timers (cb_env c h l) k) = repeat (timers l k).

(** ** Scenarios *)

Module Scenario.
(** Memory as [uv_timer_init] leaves it, and a loop with no timers. *)
Definition fresh : uv_timer_t :=
  {| timer_cb := None; timeout := 0; repeat := 0; start_id := 0;
     active := false; closing := false |}.

Definition loop0 : uv_loop_t :=
  {| time := 0; timer_counter := 0; timer_heap := []; timers := λ _, fresh |}.

(** A callback that returns at once. *)
Definition idle : cb_id → handle → uv_loop_t → uv_loop_t := λ _ _ l, l.

(** A callback that starts its own handle again, seven ticks ahead. *)
Definition restarting : cb_id → handle → uv_loop_t → uv_loop_t :=
  λ c h l, snd (uv_timer_start h (Some c) 7 0 l).

(** The loop-driver collaborator refreshing the cached time. *)
Definition at_time (now : Z) (l : uv_loop_t) : uv_loop_t :=
  {| time := now; timer_counter := timer_counter l;
     timer_heap := timer_heap l; timers := timers l |}.

Definition started (h : handle) (delay rep : Z) (l : uv_loop_t) : uv_loop_t :=
  snd (uv_timer_start h (Some 1%nat) delay rep l).

(** Four timers; handles 0 and 3 share a deadline, handle 2 repeats. *)
Definition four : uv_loop_t :=
  started 3%nat 5 0
    (started 2%nat 10 10 (started 1%nat 20 0 (started 0%nat 5 0 loop0))).

(** One repeating timer, [delay = 10, repeat = 10], and the clock moved
    to 35 in one jump. *)
Definition drift : uv_loop_t := at_time 35 (started 0%nat 10 10 loop0).

(** The four timers, with the clock at 35. *)
Definition four_late : uv_loop_t := at_time 35 four.

(** One timer, started. *)
Definition one : uv_loop_t := started 0%nat 5 0 loop0.

(** The same timer, initialised again while still linked. *)
Definition reinitialised : uv_loop_t := snd (uv_timer_init 0%nat one).




(** A repeating timer that is due, with the clock at its last value. *)
Definition saturated : uv_loop_t :=
  at_time UINT64_MAX (started 0%nat 1 1 loop0).

(** A callback that only refreshes the cached loop time (as
    [uv_update_time] does), to [now]; it touches no timer. *)
Definition refreshing (now : Z) : cb_id → handle → uv_loop_t → uv_loop_t :=
  λ _ _ l, at_time now l.

(** A callback that initialises handle 3 again, whatever its state. *)
Definition reinitialising : cb_id → handle → uv_loop_t → uv_loop_t :=
  λ _ _ l, snd (uv_timer_init 3%nat l).


(** The four timers, with the clock at 7: handles 0 and 3 are due. *)
Definition four_early : uv_loop_t := at_time 7 four.

(** Starting and stopping a second timer, over and over: each round takes
    one start id from the counter. *)
Definition churn_step (l : uv_loop_t) : uv_loop_t :=
  snd (uv_timer_stop 2%nat (snd (uv_timer_start 2%nat (Some 1%nat) 9 0 l))).

Definition churn (p : positive) (l : uv_loop_t) : uv_loop_t :=
  Pos.iter churn_step l p.

(** The states this goes through from [one], [n] being the number of
    starts so far. *)
Definition churned (n : Z) (l : uv_loop_t) : Prop :=
  timer_heap l = [0%nat] ∧ (∀ k, k ≠ 2%nat → timers l k = timers one k) ∧
  active (timers l 2%nat) = false ∧ closing (timers l 2%nat) = false ∧
  time l = 0 ∧ timer_counter l = wrap64 n.

(** The loop [one] after 2^64 - 1 such rounds: handle 0 is still linked
    with start id 0, and the counter is back at 0. *)
Definition wrapped : uv_loop_t := churn (Z.to_pos UINT64_MAX) one.

(** Another timer started then, with the same delay as handle 0. *)
Definition clash : uv_loop_t := started 1%nat 5 0 wrapped.

(** The states the expiry loop goes through from [saturated]. *)
Definition spinning (l : uv_loop_t) : Prop :=
  time l = UINT64_MAX ∧ timer_heap l = [0%nat] ∧
  timer_cb (timers l 0%nat) = Some 1%nat ∧
  timeout (timers l 0%nat) <= UINT64_MAX ∧
  repeat (timers l 0%nat) = 1 ∧
  active (timers l 0%nat) = true ∧ closing (timers l 0%nat) = false.
End Scenario.

(** * Facts *)

(** ** The heap *)

Section heap_facts.
Context {A : Type} `{EqDecision A}.
Variable lt : A → A → bool.
Hypothesis lt_asym : ∀ x y, lt x y = true → lt y x = false.
Hypothesis le_trans : ∀ x y z, heap_le lt x y → heap_le lt y z → heap_le lt x z.
Local Abbreviation le := (heap_le lt).
Local Open Scope nat_scope.

Lemma heap_le_refl x : le x x.
Proof.
  unfold heap_le. destruct (lt x x) eqn:E; [|done].
  by rewrite (lt_asym _ _ E) in E.
Qed.

Lemma heap_lt_le x y : lt x y = true → le x y.
Proof. apply lt_asym. Qed.

Lemma heap_parent_child i : i ≠ 0 → child_of (heap_parent i) i.
Proof.
  unfold child_of, heap_parent. intros.
  pose proof (Nat.div_mod_eq (i - 1) 2).
  pose proof (Nat.mod_upper_bound (i - 1) 2). lia.
Qed.

Lemma heap_swap_length (a : list A) i j : length (heap_swap a i j) = length a.
Proof.
  unfold heap_swap. destruct (a !! i), (a !! j); try done.
  by rewrite !length_insert.
Qed.

Lemma heap_swap_lookup (a : list A) i j x y k :
  a !! i = Some x → a !! j = Some y →
  heap_swap a i j !! k =
    if decide (k = i) then Some y else if decide (k = j) then Some x else a !! k.
Proof.
  intros Hi Hj. unfold heap_swap. rewrite Hi, Hj.
  apply lookup_lt_Some in Hi as Hli. apply lookup_lt_Some in Hj as Hlj.
  rewrite !list_lookup_insert, !length_insert.
  repeat case_decide; try done; try lia.
Qed.

(** Slot arithmetic, and the order facts an array hands out. *)
Ltac slots := cbv beta in *; unfold across, child_of in *; lia.

Ltac order_facts a E :=
  repeat match goal with
  | Hx : a !! ?p = Some ?x, Hy : a !! ?c = Some ?y |- _ =>
      lazymatch goal with
      | _ : heap_le lt x y |- _ => fail
      | _ => idtac
      end;
      assert (heap_le lt x y) by (apply (E p c x y); [slots|exact Hx|exact Hy])
  end.

Ltac order_close :=
  solve [ eauto 4 using heap_le_refl, heap_lt_le, le_trans | exfalso; slots ].

Lemma heap_ok_up_swap (a : list A) i p x y :
  child_of p i → a !! i = Some x → a !! p = Some y → lt x y = true →
  heap_ok_up lt a i → heap_ok_up lt (heap_swap a p i) p.
Proof.
  intros Hpi Hi Hp Hlt E q c x' y' [[??]|[??]]; apply heap_lt_le in Hlt;
  rewrite !(heap_swap_lookup _ _ _ _ _ _ Hp Hi).
  all: repeat case_decide; subst; intros; simplify_eq; order_facts a E; order_close.
Qed.

Lemma heap_ok_up_root (a : list A) : heap_ok_up lt a 0 → heap_ok lt a.
Proof. intros E p c x y HR. apply E. slots. Qed.

Lemma sift_up_ok fuel (a : list A) i :
  i ≤ fuel → heap_ok_up lt a i → heap_ok lt (sift_up lt fuel a i).
Proof.
  revert a i. induction fuel as [|fuel IH]; intros a i Hfuel E.
  { assert (i = 0) as -> by lia. by apply heap_ok_up_root. }
  simpl. case_decide as Hi0; [subst; by apply heap_ok_up_root|].
  pose proof (heap_parent_child i Hi0) as Hpc.
  destruct (a !! i) as [x|] eqn:Hx; cycle 1.
  { intros p c x y HR Hp Hc. apply (E p c); try done.
    left. split; [done|congruence]. }
  destruct (a !! heap_parent i) as [y|] eqn:Hy; cycle 1.
  { apply lookup_ge_None in Hy. apply lookup_lt_Some in Hx. slots. }
  destruct (lt x y) eqn:Hlt.
  - apply IH; [slots|]. by eapply heap_ok_up_swap.
  - intros p c x' y' HR Hp Hc.
    destruct (decide (c = i)) as [->|]; [|apply (E p c); by auto].
    assert (p = heap_parent i) as -> by slots. by simplify_eq.
Qed.

Lemma sift_up_id fuel (a : list A) i :
  heap_ok lt a → sift_up lt fuel a i = a.
Proof.
  intros Hok. destruct fuel as [|fuel]; [done|]. simpl.
  case_decide as Hi0; [done|].
  destruct (a !! i) as [x|] eqn:Hx; [|done].
  destruct (a !! heap_parent i) as [y|] eqn:Hy; [|done].
  by rewrite (Hok _ _ y x (heap_parent_child i Hi0) Hy Hx).
Qed.

Lemma smallest_of_None (a : list A) i : a !! i = None → smallest_of lt a i = i.
Proof.
  intros Hi. unfold smallest_of. rewrite Hi.
  destruct (a !! (2 * i + 1)); rewrite ?Hi; by destruct (a !! (2 * i + 2)).
Qed.

Lemma smallest_of_cases (a : list A) i x :
  a !! i = Some x →
  (smallest_of lt a i = i ∧
     ∀ c y, child_of i c → a !! c = Some y → le x y) ∨
  (child_of i (smallest_of lt a i) ∧
     ∃ y, a !! smallest_of lt a i = Some y ∧ lt y x = true ∧
          ∀ c z, child_of i c → a !! c = Some z → le y z).
Proof.
  intros Hi. unfold smallest_of. rewrite Hi.
  destruct (a !! (2 * i + 1)) as [l|] eqn:Hl;
    [destruct (lt l x) eqn:Hlx|]; rewrite ?Hl, ?Hi;
    (destruct (a !! (2 * i + 2)) as [r|] eqn:Hr;
      [match goal with |- context [lt r ?m] => destruct (lt r m) eqn:Hrm end|]).
  all: try (left; split; [done|];
            intros c y [->| ->] Hy; simplify_eq; by auto).
  all: right; (split; [unfold child_of; lia|]); eexists; split; [done|].
  - assert (lt r x = true) as Hrx.
    { destruct (lt r x) eqn:Hrx; [done|]. exfalso.
      assert (le l r) as Hlr
        by (eapply le_trans; [by apply heap_lt_le|exact Hrx]).
      unfold heap_le in Hlr. congruence. }
    split; [done|]. intros c y [->| ->] Hy; simplify_eq;
      [by apply heap_lt_le|apply heap_le_refl].
  - split; [done|]. intros c y [->| ->] Hy; simplify_eq;
      [apply heap_le_refl|done].
  - split; [done|]. intros c y [->| ->] Hy; simplify_eq. apply heap_le_refl.
  - split; [done|]. intros c y [->| ->] Hy; simplify_eq;
      [|apply heap_le_refl].
    eapply le_trans; [by apply heap_lt_le|done].
  - split; [done|]. intros c y [->| ->] Hy; simplify_eq. apply heap_le_refl.
Qed.

(** One exchange on the way down. *)
Lemma heap_ok_down_swap (a : list A) i s x y :
  child_of i s → a !! i = Some x → a !! s = Some y → lt y x = true →
  (∀ c z, child_of i c → a !! c = Some z → le y z) →
  heap_ok_down lt a i → heap_ok_down lt (heap_swap a i s) s.
Proof.
  intros His Hi Hs Hlt Hmin E0.
  assert (E : heap_ok_on lt (λ p c, ((child_of p c ∧ p ≠ i) ∨ across i p c)
                                    ∨ (p = s ∧ child_of i c)) a).
  { intros p c x' z [HR|[-> Hc]] Hp Hc'; [by apply (E0 p c)|].
    simplify_eq. by eapply Hmin. }
  clear E0 Hmin. apply heap_lt_le in Hlt.
  intros q c x' y' [[??]|[??]];
    rewrite !(heap_swap_lookup _ _ _ _ _ _ Hi Hs).
  all: repeat case_decide; subst; intros; simplify_eq; order_facts a E; order_close.
Qed.

Lemma heap_ok_down_leaf (a : list A) i :
  (∀ c y x, child_of i c → a !! i = Some x → a !! c = Some y → le x y) →
  heap_ok_down lt a i → heap_ok lt a.
Proof.
  intros Hc E p c x y HR Hp Hc'.
  destruct (decide (p = i)) as [->|]; [by eapply Hc|].
  apply (E p c); by auto.
Qed.

Lemma sift_down_ok fuel (a : list A) i :
  length a ≤ i + fuel → heap_ok_down lt a i →
  heap_ok lt (sift_down lt fuel a i).1.
Proof.
  revert a i. induction fuel as [|fuel IH]; intros a i Hfuel E; simpl.
  { apply (heap_ok_down_leaf a i); [|done].
    intros c y x _ Hx. apply lookup_lt_Some in Hx. lia. }
  destruct (a !! i) as [x|] eqn:Hx; cycle 1.
  { rewrite smallest_of_None by done. rewrite decide_True by done. simpl.
    apply (heap_ok_down_leaf a i); [|done]. intros; congruence. }
  destruct (smallest_of_cases a i x Hx) as [[-> Hc]|[Hs (y&Hy&Hlt&Hmin)]].
  { rewrite decide_True by done. simpl.
    apply (heap_ok_down_leaf a i); [|done].
    intros c y x' ? ? ?. simplify_eq. by eapply Hc. }
  rewrite decide_False by slots.
  apply IH; [rewrite heap_swap_length; slots|].
  by eapply heap_ok_down_swap.
Qed.

Lemma sift_down_length fuel (a : list A) i :
  length (sift_down lt fuel a i).1 = length a.
Proof.
  revert a i. induction fuel as [|fuel IH]; intros a i; simpl; [done|].
  case_decide; [done|]. by rewrite IH, heap_swap_length.
Qed.

Lemma sift_down_slot fuel (a : list A) i :
  i < length a → (sift_down lt fuel a i).2 < length a.
Proof.
  revert a i. induction fuel as [|fuel IH]; intros a i Hi; simpl; [done|].
  case_decide as Hs; [done|].
  destruct (lookup_lt_is_Some_2 a i Hi) as [x Hx].
  destruct (smallest_of_cases a i x Hx) as [[? _]|[_ (y&Hy&_)]]; [done|].
  specialize (IH (heap_swap a i (smallest_of lt a i)) (smallest_of lt a i)).
  rewrite heap_swap_length in IH. apply IH. by eapply lookup_lt_Some.
Qed.

(** *** Membership: the operations permute the nodes *)

Lemma heap_swap_perm (a : list A) i j : heap_swap a i j ≡ₚ a.
Proof.
  destruct (a !! i) as [x|] eqn:Hi; cycle 1.
  { unfold heap_swap. by rewrite Hi. }
  destruct (a !! j) as [y|] eqn:Hj; cycle 1.
  { unfold heap_swap. by rewrite Hi, Hj. }
  apply Permutation_inj. split; [apply heap_swap_length|].
  exists (λ k, if decide (k = i) then j else if decide (k = j) then i else k).
  split.
  - intros k1 k2. repeat case_decide; lia.
  - intros k. rewrite (heap_swap_lookup _ _ _ _ _ _ Hi Hj).
    repeat case_decide; subst; congruence.
Qed.

Lemma sift_up_perm fuel (a : list A) i : sift_up lt fuel a i ≡ₚ a.
Proof.
  revert a i. induction fuel as [|fuel IH]; intros a i; simpl; [done|].
  case_decide; [done|].
  destruct (a !! i); [|done]. destruct (a !! heap_parent i); [|done].
  destruct (lt _ _); [|done]. by rewrite IH, heap_swap_perm.
Qed.

Lemma sift_down_perm fuel (a : list A) i : (sift_down lt fuel a i).1 ≡ₚ a.
Proof.
  revert a i. induction fuel as [|fuel IH]; intros a i; simpl; [done|].
  case_decide; [done|]. by rewrite IH, heap_swap_perm.
Qed.

Lemma heap_insert_perm (a : list A) x : heap_insert lt a x ≡ₚ x :: a.
Proof.
  unfold heap_insert. rewrite sift_up_perm.
  by rewrite Permutation_app_comm.
Qed.

Lemma heap_slot_Some (a : list A) x pos :
  heap_slot a x = Some pos → a !! pos = Some x.
Proof.
  unfold heap_slot. intros Hf.
  apply fmap_Some in Hf as ([i y]&Hf&->).
  apply list_find_Some in Hf as (?&->&_). done.
Qed.

Lemma heap_slot_None (a : list A) x : heap_slot a x = None → x ∉ a.
Proof.
  unfold heap_slot. intros Hf Hin.
  apply fmap_None in Hf.
  destruct (list_find_elem_of (λ y, y = x) a x Hin eq_refl) as [? ?].
  congruence.
Qed.

Lemma heap_slot_elem_of (a : list A) x : x ∈ a → is_Some (heap_slot a x).
Proof.
  intros Hin. destruct (heap_slot a x) eqn:Hs; [by eauto|].
  by apply heap_slot_None in Hs.
Qed.

Lemma take_last_snoc (a : list A) m :
  a !! (length a - 1) = Some m → a = take (length a - 1) a ++ [m].
Proof.
  intros Hm. apply lookup_lt_Some in Hm as Hlen.
  rewrite <-(take_drop (length a - 1) a) at 1. f_equal.
  rewrite (drop_S _ _ _ Hm), drop_ge by lia. done.
Qed.

Lemma list_insert_perm (l : list A) i x m :
  l !! i = Some x → x :: <[i:=m]> l ≡ₚ m :: l.
Proof.
  intros Hi. apply lookup_lt_Some in Hi as Hlen.
  rewrite insert_take_drop by done.
  rewrite <-(take_drop_middle l i x Hi) at 3.
  rewrite <-!Permutation_middle. apply perm_swap.
Qed.

Lemma heap_remove_perm (a : list A) x :
  x ∈ a → a ≡ₚ x :: heap_remove lt a x.
Proof.
  intros Hin. unfold heap_remove.
  destruct (heap_slot_elem_of a x Hin) as [pos Hpos]. rewrite Hpos.
  apply heap_slot_Some in Hpos. apply lookup_lt_Some in Hpos as Hlen.
  destruct (lookup_lt_is_Some_2 a (length a - 1)) as [m Hm]; [lia|].
  rewrite Hm. pose proof (take_last_snoc a m Hm) as Hsnoc.
  case_decide as Hlast.
  - subst pos. simplify_eq. rewrite Hsnoc at 1.
    by rewrite Permutation_app_comm.
  - destruct (sift_down _ _ _ _) as [b q] eqn:Hsd.
    rewrite sift_up_perm.
    change b with (b, q).1. rewrite <-Hsd, sift_down_perm.
    rewrite list_insert_perm; cycle 1.
    { rewrite lookup_take_lt by lia. done. }
    rewrite Hsnoc at 1. by rewrite Permutation_app_comm.
Qed.

Lemma heap_remove_absent (a : list A) x : x ∉ a → heap_remove lt a x = a.
Proof.
  intros Hin. unfold heap_remove.
  destruct (heap_slot a x) as [pos|] eqn:Hpos; [|done].
  apply heap_slot_Some, list_elem_of_lookup_2 in Hpos. done.
Qed.

(** *** Order: the operations keep the heap ordered *)

Lemma heap_ok_nil : heap_ok lt [].
Proof. intros p c x y _ Hp. done. Qed.

Lemma heap_ok_take (a : list A) n : heap_ok lt a → heap_ok lt (take n a).
Proof.
  intros Hok p c x y HR Hp Hc.
  apply lookup_take_Some in Hp as [Hp _]. apply lookup_take_Some in Hc as [Hc _].
  by apply (Hok p c).
Qed.

Lemma heap_insert_ok (a : list A) x : heap_ok lt a → heap_ok lt (heap_insert lt a x).
Proof.
  intros Hok. apply sift_up_ok; [lia|].
  intros p c y z HR Hp Hc.
  apply lookup_lt_Some in Hc as Hlen. rewrite length_app in Hlen. simpl in Hlen.
  destruct HR as [[HR Hne]|[_ HR]]; [|slots].
  rewrite lookup_app_l in Hp by slots. rewrite lookup_app_l in Hc by lia.
  by apply (Hok p c).
Qed.

Lemma heap_ok_punch (a : list A) i m :
  i < length a → heap_ok lt a →
  heap_ok_on lt (λ p c, (child_of p c ∧ p ≠ i ∧ c ≠ i) ∨ across i p c)
    (<[i:=m]> a).
Proof.
  intros Hi Hok p c x y HR.
  destruct (lookup_lt_is_Some_2 a i Hi) as [z Hz].
  rewrite !list_lookup_insert_ne by slots. intros Hp Hc.
  destruct HR as [(?&?&?)|[??]]; [by apply (Hok p c)|].
  eapply le_trans; [by apply (Hok p i)|by apply (Hok i c)].
Qed.

Lemma sift_down_stay fuel (a : list A) i :
  smallest_of lt a i = i → sift_down lt fuel a i = (a, i).
Proof. intros Hs. destruct fuel; simpl; [done|]. by rewrite decide_True. Qed.

Lemma heap_remove_ok (a : list A) x : heap_ok lt a → heap_ok lt (heap_remove lt a x).
Proof.
  intros Hok. unfold heap_remove.
  destruct (heap_slot a x) as [pos|] eqn:Hpos; [|done].
  apply heap_slot_Some in Hpos. apply lookup_lt_Some in Hpos as Hlen.
  destruct (a !! (length a - 1)) as [m|] eqn:Hm; [|done].
  case_decide as Hlast; [by apply heap_ok_take|].
  set (a' := take (length a - 1) a).
  assert (Hlen' : length a' = length a - 1) by (unfold a'; rewrite length_take; lia).
  assert (Hok' : heap_ok lt a') by by apply heap_ok_take.
  assert (Hpos' : pos < length a') by lia.
  pose proof (heap_ok_punch a' pos m Hpos' Hok') as E.
  assert (Hm' : <[pos:=m]> a' !! pos = Some m) by by apply list_lookup_insert_eq.
  assert (Hup : (∀ g y, child_of g pos → <[pos:=m]> a' !! g = Some y → le y m) →
                heap_ok_down lt (<[pos:=m]> a') pos).
  { intros Hg p c y z HR Hp Hc.
    destruct (decide (c = pos)) as [->|]; [|apply (E p c); [slots|done..]].
    simplify_eq. eapply Hg; [|done]. slots. }
  assert (Hfin : heap_ok_down lt (<[pos:=m]> a') pos →
    heap_ok lt (let '(b, q) := sift_down lt (length a) (<[pos:=m]> a') pos in
                sift_up lt (length a) b q)).
  { intros Hd. destruct (sift_down _ _ _ _) as [b q] eqn:Hsd.
    assert (heap_ok lt b) as Hb.
    { change b with (b, q).1. rewrite <-Hsd. apply sift_down_ok; [|done].
      rewrite length_insert. lia. }
    by rewrite sift_up_id. }
  destruct (decide (pos = 0)) as [->|Hpos0].
  { apply Hfin, Hup. intros g y Hg. slots. }
  pose proof (heap_parent_child pos Hpos0) as Hpc.
  destruct (lookup_lt_is_Some_2 a' (heap_parent pos)) as [y Hy]; [slots|].
  assert (Hy' : <[pos:=m]> a' !! heap_parent pos = Some y).
  { rewrite list_lookup_insert_ne by slots. done. }
  destruct (lt m y) eqn:Hlt; cycle 1.
  { apply Hfin, Hup. intros g z Hg Hz.
    assert (g = heap_parent pos) as -> by slots. by simplify_eq. }
  (* the boundary node is smaller than the parent of the hole: it goes up *)
  assert (Hc : ∀ c z, child_of pos c → <[pos:=m]> a' !! c = Some z → le m z).
  { intros c z Hc Hz. apply heap_lt_le in Hlt.
    eapply le_trans; [exact Hlt|]. apply (E (heap_parent pos) c); [slots|done..]. }
  assert (smallest_of lt (<[pos:=m]> a') pos = pos) as Hs.
  { destruct (smallest_of_cases _ _ _ Hm') as [[? _]|[Hs (z&Hz&Hzm&_)]]; [done|].
    exfalso. specialize (Hc _ _ Hs Hz). unfold heap_le in Hc. congruence. }
  rewrite sift_down_stay by done.
  apply sift_up_ok; [lia|].
  intros p c u v HR Hp Hc'.
  destruct (decide (p = pos)) as [->|]; [|apply (E p c); [slots|done..]].
  simplify_eq. destruct HR as [[? _]|?]; [|slots]. by eapply Hc.
Qed.

(** The root is below every node. *)
Lemma heap_min_least (a : list A) m :
  heap_ok lt a → heap_min a = Some m → ∀ x, x ∈ a → le m x.
Proof.
  intros Hok Hm x Hx. apply list_elem_of_lookup in Hx as [i Hi].
  revert x Hi. induction (lt_wf i) as [i _ IH]. intros x Hi.
  destruct (decide (i = 0)) as [->|Hi0].
  { unfold heap_min in Hm. simplify_eq. apply heap_le_refl. }
  pose proof (heap_parent_child i Hi0) as Hpc.
  destruct (lookup_lt_is_Some_2 a (heap_parent i)) as [y Hy].
  { apply lookup_lt_Some in Hi. slots. }
  eapply le_trans; [apply (IH (heap_parent i)); [slots|done]|].
  by apply (Hok (heap_parent i) i).
Qed.
End heap_facts.

(** * The timers *)

(** ** The comparator *)

Lemma timer_less_than_spec a b :
  timer_less_than a b = true ↔
  timeout a < timeout b ∨ (timeout a = timeout b ∧ start_id a < start_id b).
Proof.
  unfold timer_less_than.
  destruct (Z.ltb_spec (timeout a) (timeout b)); [intuition lia|].
  destruct (Z.ltb_spec (timeout b) (timeout a)); [intuition lia|].
  rewrite Z.ltb_lt. lia.
Qed.

Lemma timer_less_than_false a b :
  timer_less_than a b = false ↔
  timeout b < timeout a ∨ (timeout a = timeout b ∧ start_id b <= start_id a).
Proof.
  rewrite <-not_true_iff_false, timer_less_than_spec. lia.
Qed.

Lemma node_less_than_asym m x y :
  node_less_than m x y = true → node_less_than m y x = false.
Proof.
  unfold node_less_than. rewrite timer_less_than_spec, timer_less_than_false. lia.
Qed.

Lemma node_le_trans m x y z :
  heap_le (node_less_than m) x y → heap_le (node_less_than m) y z →
  heap_le (node_less_than m) x z.
Proof.
  unfold heap_le, node_less_than. rewrite !timer_less_than_false. lia.
Qed.

(** The order of the heap only looks at the handles linked into it. *)
Lemma heap_ok_agree (m m' : handle → uv_timer_t) (a : list handle) :
  (∀ h, h ∈ a → timeout (m' h) = timeout (m h) ∧ start_id (m' h) = start_id (m h)) →
  heap_ok (node_less_than m) a → heap_ok (node_less_than m') a.
Proof.
  intros Hag Hok p c x y HR Hp Hc.
  specialize (Hok p c x y HR Hp Hc).
  destruct (Hag x) as [? ?]; [by eapply list_elem_of_lookup_2|].
  destruct (Hag y) as [? ?]; [by eapply list_elem_of_lookup_2|].
  unfold heap_le, node_less_than in *. rewrite timer_less_than_false in *. lia.
Qed.

(** ** What the operations do to the loop *)

Lemma uv_timer_stop_inactive h l :
  active (timers l h) = false → uv_timer_stop h l = (0, l).
Proof. intros Ha. unfold uv_timer_stop, uv__is_active. by rewrite Ha. Qed.

Lemma uv_timer_stop_active h l :
  active (timers l h) = true →
  uv_timer_stop h l =
    (0, {| time := time l; timer_counter := timer_counter l;
           timer_heap := heap_remove (node_less_than (timers l)) (timer_heap l) h;
           timers := <[h := set_active false (timers l h)]> (timers l) |}).
Proof. intros Ha. unfold uv_timer_stop, uv__is_active. by rewrite Ha. Qed.

Lemma uv_timer_stop_result h l : fst (uv_timer_stop h l) = 0.
Proof. unfold uv_timer_stop. by destruct (negb _). Qed.

Lemma uv_timer_stop_time h l : time (snd (uv_timer_stop h l)) = time l.
Proof. unfold uv_timer_stop. by destruct (negb _). Qed.

Lemma uv_timer_stop_counter h l :
  timer_counter (snd (uv_timer_stop h l)) = timer_counter l.
Proof. unfold uv_timer_stop. by destruct (negb _). Qed.

Lemma uv_timer_stop_timers h l k :
  timers (snd (uv_timer_stop h l)) k =
    if decide (k = h) then set_active false (timers l h) else timers l k.
Proof.
  destruct (active (timers l h)) eqn:Ha.
  - rewrite uv_timer_stop_active by done. simpl.
    case_decide; subst; [by rewrite fn_lookup_insert|by rewrite fn_lookup_insert_ne].
  - rewrite uv_timer_stop_inactive by done. simpl.
    case_decide; subst; [|done]. destruct (timers l h); simpl in *; by subst.
Qed.

Lemma uv_timer_stop_heap h l :
  linked_ok l →
  timer_heap (snd (uv_timer_stop h l)) =
    heap_remove (node_less_than (timers l)) (timer_heap l) h.
Proof.
  intros [_ Hl]. destruct (active (timers l h)) eqn:Ha.
  - by rewrite uv_timer_stop_active.
  - rewrite uv_timer_stop_inactive by done. simpl.
    rewrite heap_remove_absent; [done|]. rewrite Hl. congruence.
Qed.

(** After [uv_timer_stop] the handle is out of the heap; the others stay. *)
Lemma uv_timer_stop_elem_of h l k :
  linked_ok l →
  k ∈ timer_heap (snd (uv_timer_stop h l)) ↔ k ∈ timer_heap l ∧ k ≠ h.
Proof.
  intros Hl. rewrite uv_timer_stop_heap by done. destruct Hl as [Hnd Hl].
  destruct (decide (h ∈ timer_heap l)) as [Hin|Hin].
  - pose proof (heap_remove_perm (node_less_than (timers l)) _ _ Hin) as Hp.
    rewrite Hp in Hnd. apply NoDup_cons_1_1 in Hnd as Hnin.
    rewrite Hp at 2. rewrite elem_of_cons. intuition congruence.
  - rewrite heap_remove_absent by done. intuition congruence.
Qed.

Lemma uv_timer_stop_NoDup h l :
  linked_ok l → NoDup (timer_heap (snd (uv_timer_stop h l))).
Proof.
  intros Hl. rewrite uv_timer_stop_heap by done. destruct Hl as [Hnd Hl].
  destruct (decide (h ∈ timer_heap l)) as [Hin|Hin].
  - pose proof (heap_remove_perm (node_less_than (timers l)) _ _ Hin) as Hp.
    rewrite Hp in Hnd. by apply NoDup_cons_1_2 in Hnd.
  - by rewrite heap_remove_absent.
Qed.

Lemma uv_timer_stop_linked h l : linked_ok l → linked_ok (snd (uv_timer_stop h l)).
Proof.
  intros Hl. split; [by apply uv_timer_stop_NoDup|].
  intros k. rewrite uv_timer_stop_elem_of, uv_timer_stop_timers by done.
  destruct Hl as [_ Hl]. rewrite Hl.
  case_decide; subst; simpl; intuition congruence.
Qed.

Lemma uv_timer_stop_ordered h l :
  loop_ordered l → linked_ok l → loop_ordered (snd (uv_timer_stop h l)).
Proof.
  intros Hok Hl. unfold loop_ordered. rewrite uv_timer_stop_heap by done.
  eapply heap_ok_agree; cycle 1.
  - apply heap_remove_ok; [apply node_less_than_asym|apply node_le_trans|exact Hok].
  - intros k _. rewrite uv_timer_stop_timers. by case_decide; subst.
Qed.

(** [uv_timer_start] on a handle that is not closing, with a callback. *)
Lemma uv_timer_start_result h cb t r l :
  fst (uv_timer_start h cb t r l) =
    if closing (timers l h) || negb (bool_decide (is_Some cb)) then UV_EINVAL else 0.
Proof. unfold uv_timer_start, uv__is_closing. by destruct (_ || _). Qed.

Lemma uv_timer_start_refused h cb t r l :
  closing (timers l h) = true ∨ cb = None →
  uv_timer_start h cb t r l = (UV_EINVAL, l).
Proof.
  unfold uv_timer_start, uv__is_closing.
  intros [-> | ->]; [done|]. by rewrite orb_true_r.
Qed.

(** The deadline as the source computes it, and as a saturated sum. *)
Lemma clamped_timeout_deadline now t :
  uint64 now → uint64 t →
  clamped now t = deadline now t.
Proof.
  unfold clamped, uint64, wrap64, deadline, UINT64_MAX. intros Hn Ht. simpl.
  destruct (Z_lt_le_dec (now + t) (2 ^ 64)) as [Hlt|Hge].
  - rewrite Z.mod_small by lia.
    destruct (Z.ltb_spec (now + t) t); lia.
  - replace ((now + t) mod 2 ^ 64) with (now + t - 2 ^ 64).
    + destruct (Z.ltb_spec (now + t - 2 ^ 64) t); lia.
    + apply Z.mod_unique with 1; lia.
Qed.

Lemma uv_timer_start_accepted h c t r l :
  closing (timers l h) = false →
  let l1 := snd (uv_timer_stop h l) in
  let t' := {| timer_cb := Some c;
               timeout := clamped (time l) t;
               repeat := r; start_id := timer_counter l;
               active := false; closing := false |} in
  uv_timer_start h (Some c) t r l =
    (0, {| time := time l; timer_counter := wrap64 (timer_counter l + 1);
           timer_heap := heap_insert (node_less_than (<[h := t']> (timers l1)))
                           (timer_heap l1) h;
           timers := <[h := set_active true t']>
                       (<[h := t']> (timers l1)) |}).
Proof.
  intros Hc. unfold uv_timer_start, uv__is_closing. rewrite Hc. simpl.
  replace (if uv__is_active (timers l h) then snd (uv_timer_stop h l) else l)
    with (snd (uv_timer_stop h l)); cycle 1.
  { unfold uv__is_active. destruct (active (timers l h)) eqn:Ha; [done|].
    by rewrite uv_timer_stop_inactive. }
  unfold uv__handle_start, set_timer_heap, set_timer_counter, set_timers. simpl.
  rewrite uv_timer_stop_time, uv_timer_stop_counter, uv_timer_stop_timers.
  rewrite decide_True by done. simpl. rewrite Hc, fn_lookup_insert. done.
Qed.

Section started.
Variables (h : handle) (c : cb_id) (t r : Z) (l : uv_loop_t).
Hypothesis Hopen : closing (timers l h) = false.
Local Abbreviation l' := (snd (uv_timer_start h (Some c) t r l)).

Lemma uv_timer_start_time : time l' = time l.
Proof. by rewrite uv_timer_start_accepted. Qed.

Lemma uv_timer_start_counter : timer_counter l' = wrap64 (timer_counter l + 1).
Proof. by rewrite uv_timer_start_accepted. Qed.

Lemma uv_timer_start_timers k :
  timers l' k =
    if decide (k = h) then armed c (clamped (time l) t) r (timer_counter l)
    else timers l k.
Proof.
  rewrite uv_timer_start_accepted by done. simpl.
  case_decide; subst; [by rewrite fn_lookup_insert|].
  rewrite !fn_lookup_insert_ne, uv_timer_stop_timers by done.
  by rewrite decide_False.
Qed.

Hypothesis Hlinked : linked_ok l.

Lemma uv_timer_start_heap :
  timer_heap l' ≡ₚ h :: timer_heap (snd (uv_timer_stop h l)).
Proof.
  rewrite uv_timer_start_accepted by done. simpl.
  apply heap_insert_perm.
Qed.

Lemma uv_timer_start_elem_of k : k ∈ timer_heap l' ↔ k = h ∨ k ∈ timer_heap l.
Proof.
  rewrite uv_timer_start_heap, elem_of_cons, uv_timer_stop_elem_of by done.
  destruct (decide (k = h)); intuition congruence.
Qed.

Lemma uv_timer_start_linked : linked_ok l'.
Proof.
  split.
  - rewrite uv_timer_start_heap. apply NoDup_cons_2.
    + rewrite uv_timer_stop_elem_of by done. intuition congruence.
    + by apply uv_timer_stop_NoDup.
  - intros k. rewrite uv_timer_start_elem_of, uv_timer_start_timers.
    destruct Hlinked as [_ Hl]. rewrite Hl.
    case_decide; subst; simpl; intuition congruence.
Qed.

Lemma uv_timer_start_ordered : loop_ordered l → loop_ordered l'.
Proof.
  intros Hok. unfold loop_ordered.
  rewrite uv_timer_start_accepted by done. simpl.
  eapply heap_ok_agree; cycle 1.
  - apply heap_insert_ok; [apply node_less_than_asym|apply node_le_trans|].
    eapply heap_ok_agree; [|by apply uv_timer_stop_ordered].
    intros k Hk. apply uv_timer_stop_elem_of in Hk as [_ Hk]; [|done].
    by rewrite fn_lookup_insert_ne.
  - intros k _. destruct (decide (k = h)) as [->|].
    + by rewrite !fn_lookup_insert.
    + by rewrite !fn_lookup_insert_ne.
Qed.
End started.

(** [uv_timer_again], case by case. *)
Lemma uv_timer_again_never_started h l :
  timer_cb (timers l h) = None → uv_timer_again h l = (UV_EINVAL, l).
Proof. intros Hcb. unfold uv_timer_again. by rewrite Hcb. Qed.

Lemma uv_timer_again_one_shot h c l :
  timer_cb (timers l h) = Some c → repeat (timers l h) = 0 →
  uv_timer_again h l = (0, l).
Proof. intros Hcb Hr. unfold uv_timer_again. by rewrite Hcb, Hr. Qed.

Lemma uv_timer_again_repeating h c l :
  timer_cb (timers l h) = Some c → repeat (timers l h) ≠ 0 →
  uv_timer_again h l =
    (0, snd (uv_timer_start h (Some c) (repeat (timers l h)) (repeat (timers l h))
               (snd (uv_timer_stop h l)))).
Proof.
  intros Hcb Hr. unfold uv_timer_again. rewrite Hcb.
  apply Z.eqb_neq in Hr. rewrite Hr. simpl.
  rewrite uv_timer_stop_timers, decide_True by done. simpl. by rewrite Hcb.
Qed.

Lemma uv_timer_again_time h l : time (snd (uv_timer_again h l)) = time l.
Proof.
  destruct (timer_cb (timers l h)) as [c|] eqn:Hcb;
    [|by rewrite uv_timer_again_never_started].
  destruct (decide (repeat (timers l h) = 0)) as [Hr|Hr];
    [by erewrite uv_timer_again_one_shot|].
  erewrite uv_timer_again_repeating by done. simpl.
  destruct (closing (timers l h)) eqn:Hc.
  - rewrite uv_timer_start_refused; [simpl; apply uv_timer_stop_time|].
    left. rewrite uv_timer_stop_timers, decide_True by done. done.
  - rewrite uv_timer_start_time, uv_timer_stop_time; [done|].
    rewrite uv_timer_stop_timers, decide_True by done. done.
Qed.

(** ** The invariants are kept *)

Lemma uv_timer_start_keeps_linked h cb t r l :
  linked_ok l → linked_ok (snd (uv_timer_start h cb t r l)).
Proof.
  intros Hl. destruct cb as [c|]; [|by rewrite uv_timer_start_refused by auto].
  destruct (closing (timers l h)) eqn:Hc;
    [by rewrite uv_timer_start_refused by auto|].
  by apply uv_timer_start_linked.
Qed.

Lemma uv_timer_start_keeps_ordered h cb t r l :
  linked_ok l → loop_ordered l → loop_ordered (snd (uv_timer_start h cb t r l)).
Proof.
  intros Hl Ho. destruct cb as [c|]; [|by rewrite uv_timer_start_refused by auto].
  destruct (closing (timers l h)) eqn:Hc;
    [by rewrite uv_timer_start_refused by auto|].
  by apply uv_timer_start_ordered.
Qed.

Lemma uv_timer_again_keeps_linked h l :
  linked_ok l → linked_ok (snd (uv_timer_again h l)).
Proof.
  intros Hl. unfold uv_timer_again.
  destruct (timer_cb (timers l h)); [|done].
  destruct (negb _); [|done]. simpl.
  by apply uv_timer_start_keeps_linked, uv_timer_stop_linked.
Qed.

Lemma uv_timer_again_keeps_ordered h l :
  linked_ok l → loop_ordered l → loop_ordered (snd (uv_timer_again h l)).
Proof.
  intros Hl Ho. unfold uv_timer_again.
  destruct (timer_cb (timers l h)); [|done].
  destruct (negb _); [|done]. simpl.
  apply uv_timer_start_keeps_ordered;
    [by apply uv_timer_stop_linked|by apply uv_timer_stop_ordered].
Qed.

Lemma uint64_clamped now t : uint64 now → uint64 t → uint64 (clamped now t).
Proof.
  intros Hn Ht. rewrite clamped_timeout_deadline by done.
  unfold deadline, uint64, UINT64_MAX in *. lia.
Qed.

Lemma uv_timer_stop_keeps_ok h l : loop_ok l → loop_ok (snd (uv_timer_stop h l)).
Proof.
  intros (Hl&Ho&Ht&Hwf&Hcb). split_and!.
  - by apply uv_timer_stop_linked.
  - by apply uv_timer_stop_ordered.
  - by rewrite uv_timer_stop_time.
  - intros k. rewrite uv_timer_stop_timers. case_decide; subst; apply Hwf.
  - intros k Hk. apply uv_timer_stop_elem_of in Hk as [Hk ?]; [|done].
    rewrite uv_timer_stop_timers, decide_False by done. by apply Hcb.
Qed.

Lemma uv_timer_start_keeps_ok h cb t r l :
  uint64 t → uint64 r → loop_ok l → loop_ok (snd (uv_timer_start h cb t r l)).
Proof.
  intros Ht Hr Hok.
  destruct cb as [c|]; [|by rewrite uv_timer_start_refused by auto].
  destruct (closing (timers l h)) eqn:Hc;
    [by rewrite uv_timer_start_refused by auto|].
  destruct Hok as (Hl&Ho&Hnow&Hwf&Hcb). split_and!.
  - by apply uv_timer_start_linked.
  - by apply uv_timer_start_ordered.
  - by rewrite uv_timer_start_time.
  - intros k. rewrite uv_timer_start_timers by done.
    case_decide; subst; [|apply Hwf]. split; simpl; [by apply uint64_clamped|done].
  - intros k Hk. rewrite uv_timer_start_timers by done.
    case_decide; subst; simpl; [by eauto|].
    apply uv_timer_start_elem_of in Hk as [?|?]; by auto.
Qed.

Lemma uv_timer_again_keeps_ok h l : loop_ok l → loop_ok (snd (uv_timer_again h l)).
Proof.
  intros Hok. unfold uv_timer_again.
  destruct (timer_cb (timers l h)); [|done].
  destruct (negb _); [|done]. simpl.
  assert (Hok' := uv_timer_stop_keeps_ok h l Hok).
  destruct Hok' as (?&?&?&Hwf&?).
  apply uv_timer_start_keeps_ok; [apply Hwf..|done].
Qed.

Lemma heap_min_None {A} (a : list A) : heap_min a = None ↔ a = [].
Proof. unfold heap_min. by destruct a. Qed.

Lemma heap_min_elem_of {A} (a : list A) m : heap_min a = Some m → m ∈ a.
Proof. unfold heap_min. apply list_elem_of_lookup_2. Qed.

(** The root of an ordered heap has the earliest deadline. *)
Lemma loop_min_least l h k :
  loop_ordered l → heap_min (timer_heap l) = Some h → k ∈ timer_heap l →
  timer_less_than (timers l k) (timers l h) = false.
Proof.
  intros Ho Hm Hk.
  apply (heap_min_least (node_less_than (timers l))
           (node_less_than_asym _) (node_le_trans _) _ _ Ho Hm k Hk).
Qed.

(** ** Stop is idempotent *)

(** C9: [uv_timer_stop] on an inactive handle returns 0 and leaves the loop
    (heap included) as it is; it always returns 0; and a second stop right
    after a first one changes nothing. *)
Theorem uv_timer_stop_idempotent h l :
  (active (timers l h) = false → uv_timer_stop h l = (0, l)) ∧
  fst (uv_timer_stop h l) = 0 ∧
  uv_timer_stop h (snd (uv_timer_stop h l)) = (0, snd (uv_timer_stop h l)).
Proof.
  split_and!.
  - apply uv_timer_stop_inactive.
  - apply uv_timer_stop_result.
  - apply uv_timer_stop_inactive.
    rewrite uv_timer_stop_timers, decide_True by done. done.
Qed.

(** ** The repeat accessors *)

(** C10: [uv_timer_set_repeat] writes the repeat field and nothing else:
    the other fields of the handle, the other handles, the heap, the clock
    and the counter are as before, so the comparator, the poll budget and
    the time left are unchanged; [uv_timer_get_repeat] reads the value
    back, and the next re-arm uses it as the delay. *)
Theorem uv_timer_set_repeat_frame h v l :
  let l' := uv_timer_set_repeat h v l in
  uv_timer_get_repeat h l' = v ∧
  (timer_cb (timers l' h) = timer_cb (timers l h) ∧
   timeout (timers l' h) = timeout (timers l h) ∧
   start_id (timers l' h) = start_id (timers l h) ∧
   active (timers l' h) = active (timers l h) ∧
   closing (timers l' h) = closing (timers l h)) ∧
  (∀ k, k ≠ h → timers l' k = timers l k) ∧
  (timer_heap l' = timer_heap l ∧ time l' = time l ∧
   timer_counter l' = timer_counter l) ∧
  (∀ a b, node_less_than (timers l') a b = node_less_than (timers l) a b) ∧
  uv__next_timeout l' = uv__next_timeout l ∧
  uv_timer_get_due_in h l' = uv_timer_get_due_in h l ∧
  (∀ c, timer_cb (timers l h) = Some c → closing (timers l h) = false →
        v ≠ 0 →
        timeout (timers (snd (uv_timer_again h l')) h) = clamped (time l) v).
Proof.
  intros l'.
  assert (Hh : timers l' h = set_repeat v (timers l h))
    by (unfold l', uv_timer_set_repeat; simpl; by rewrite fn_lookup_insert).
  assert (Hk : ∀ k, k ≠ h → timers l' k = timers l k)
    by (intros k Hk; unfold l', uv_timer_set_repeat; simpl;
        by rewrite fn_lookup_insert_ne).
  assert (Hheap : timer_heap l' = timer_heap l) by done.
  assert (Hnow : time l' = time l) by done.
  assert (Hcnt : timer_counter l' = timer_counter l) by done.
  clearbody l'.
  assert (Hsched : ∀ k, timeout (timers l' k) = timeout (timers l k) ∧
                        start_id (timers l' k) = start_id (timers l k)).
  { intros k. destruct (decide (k = h)) as [->|]; [by rewrite Hh|by rewrite Hk]. }
  split_and!; try done; try (by rewrite Hh).
  - unfold uv_timer_get_repeat. by rewrite Hh.
  - intros a b. unfold node_less_than, timer_less_than.
    destruct (Hsched a) as [-> ->]. by destruct (Hsched b) as [-> ->].
  - unfold uv__next_timeout. rewrite Hheap, Hnow.
    destruct (heap_min (timer_heap l)) as [k|]; [|done].
    by destruct (Hsched k) as [-> _].
  - unfold uv_timer_get_due_in. rewrite Hnow.
    by destruct (Hsched h) as [-> _].
  - intros c Hcb Hc Hv.
    erewrite uv_timer_again_repeating; [|by rewrite Hh|by rewrite Hh]. simpl.
    rewrite uv_timer_start_timers, decide_True by
      (try done; rewrite uv_timer_stop_timers, decide_True by done;
       simpl; by rewrite Hh).
    simpl. rewrite uv_timer_stop_time, Hh, Hnow. done.
Qed.

(** ** Invalid arguments *)

(** C7: [uv_timer_start] returns [UV_EINVAL] exactly when the callback is
    null or the handle is closing, [uv_timer_again] exactly when the
    handle has no callback; both return 0 otherwise, and a call that
    returns [UV_EINVAL] leaves the whole loop as it was. *)
Theorem invalid_argument_unchanged h cb t r l :
  (fst (uv_timer_start h cb t r l) = UV_EINVAL ↔
     cb = None ∨ closing (timers l h) = true) ∧
  (fst (uv_timer_start h cb t r l) = UV_EINVAL →
     snd (uv_timer_start h cb t r l) = l) ∧
  (fst (uv_timer_start h cb t r l) ≠ UV_EINVAL →
     fst (uv_timer_start h cb t r l) = 0) ∧
  (fst (uv_timer_again h l) = UV_EINVAL ↔ timer_cb (timers l h) = None) ∧
  (fst (uv_timer_again h l) = UV_EINVAL → snd (uv_timer_again h l) = l) ∧
  (fst (uv_timer_again h l) ≠ UV_EINVAL → fst (uv_timer_again h l) = 0).
Proof.
  assert (Hs : fst (uv_timer_start h cb t r l) = UV_EINVAL ↔
               cb = None ∨ closing (timers l h) = true).
  { rewrite uv_timer_start_result.
    destruct cb as [c|], (closing (timers l h)); simpl;
      unfold UV_EINVAL; intuition (discriminate || eauto). }
  assert (Ha : fst (uv_timer_again h l) = UV_EINVAL ↔ timer_cb (timers l h) = None).
  { unfold uv_timer_again. destruct (timer_cb (timers l h)); [|done].
    destruct (negb _); simpl; unfold UV_EINVAL; split; discriminate. }
  split_and!; try done.
  - intros He. apply Hs in He. rewrite uv_timer_start_refused; [done|tauto].
  - rewrite uv_timer_start_result. by destruct (_ || _).
  - intros He. apply Ha in He. by rewrite uv_timer_again_never_started.
  - unfold uv_timer_again. destruct (timer_cb (timers l h)); [|done].
    by destruct (negb _).
Qed.

(** ** Saturation *)

(** C5: the deadline [uv_timer_start] stores is the loop time plus the
    delay, saturated at 2^64 - 1: never below the delay or the loop time,
    equal to 2^64 - 1 when the sum overflows, and in particular for the
    largest delay at a positive loop time. *)
Theorem uv_timer_start_saturates h c delay r l :
  uint64 (time l) → uint64 delay → closing (timers l h) = false →
  let dl := timeout (timers (snd (uv_timer_start h (Some c) delay r l)) h) in
  dl = Z.min (time l + delay) UINT64_MAX ∧
  delay <= dl ∧ time l <= dl ∧
  (UINT64_MAX < time l + delay → dl = UINT64_MAX) ∧
  (delay = UINT64_MAX → 0 < time l → dl = UINT64_MAX).
Proof.
  intros Hnow Hd Hc dl.
  assert (dl = Z.min (time l + delay) UINT64_MAX) as Hdl.
  { unfold dl. rewrite uv_timer_start_timers, decide_True by done. simpl.
    by apply clamped_timeout_deadline. }
  unfold uint64 in *. split_and!; lia.
Qed.

(** ** The poll budget *)

(** C2: [uv__next_timeout] returns -1 exactly when the heap is empty;
    otherwise it looks at the root: 0 when its deadline is at or before the
    loop time, else (both being 64-bit values) the difference, cut at
    [INT_MAX]; the result never exceeds [INT_MAX], and in an ordered heap
    the root has the earliest deadline of all. *)
Theorem uv__next_timeout_spec l :
  (uv__next_timeout l = -1 ↔ timer_heap l = []) ∧
  (∀ h, heap_min (timer_heap l) = Some h →
        timeout (timers l h) <= time l → uv__next_timeout l = 0) ∧
  (∀ h, heap_min (timer_heap l) = Some h →
        time l < timeout (timers l h) →
        uint64 (time l) → uint64 (timeout (timers l h)) →
        uv__next_timeout l = Z.min (timeout (timers l h) - time l) INT_MAX) ∧
  -1 <= uv__next_timeout l <= INT_MAX ∧
  (loop_ordered l → ∀ h k, heap_min (timer_heap l) = Some h →
        k ∈ timer_heap l → timeout (timers l h) <= timeout (timers l k)).
Proof.
  assert (Hrange : ∀ h, heap_min (timer_heap l) = Some h →
            0 <= uv__next_timeout l <= INT_MAX).
  { intros h Hm. unfold uv__next_timeout. rewrite Hm.
    destruct (Z.leb_spec (timeout (timers l h)) (time l)); [unfold INT_MAX; lia|].
    pose proof (Z.mod_pos_bound (timeout (timers l h) - time l) (2 ^ 64)
                  ltac:(lia)) as Hmod.
    unfold wrap64.
    destruct (Z.gtb_spec ((timeout (timers l h) - time l) mod 2 ^ 64) INT_MAX);
      unfold INT_MAX in *; lia. }
  split_and!.
  - rewrite <-heap_min_None.
    destruct (heap_min (timer_heap l)) as [h|] eqn:Hm.
    + specialize (Hrange h eq_refl). split; [lia|done].
    + unfold uv__next_timeout. by rewrite Hm.
  - intros h Hm Hdue. unfold uv__next_timeout. rewrite Hm.
    destruct (Z.leb_spec (timeout (timers l h)) (time l)); [done|lia].
  - intros h Hm Hlate Hnow Hto. unfold uv__next_timeout. rewrite Hm.
    destruct (Z.leb_spec (timeout (timers l h)) (time l)); [lia|].
    unfold uint64, UINT64_MAX, wrap64 in *.
    rewrite Z.mod_small by lia.
    destruct (Z.gtb_spec (timeout (timers l h) - time l) INT_MAX); lia.
  - destruct (heap_min (timer_heap l)) as [h|] eqn:Hm.
    + specialize (Hrange h eq_refl). lia.
    + unfold uv__next_timeout. by rewrite Hm.
  - destruct (heap_min (timer_heap l)) as [h|] eqn:Hm.
    + specialize (Hrange h eq_refl). lia.
    + unfold uv__next_timeout. rewrite Hm. unfold INT_MAX. lia.
  - intros Ho h k Hm Hk.
    pose proof (loop_min_least l h k Ho Hm Hk) as Hle.
    apply timer_less_than_false in Hle. lia.
Qed.

(** ** Linked if and only if active *)

Lemma uv_timer_init_linked h l :
  linked_ok l → h ∉ timer_heap l → linked_ok (snd (uv_timer_init h l)).
Proof.
  intros [Hnd Hl] Hh. split; [done|]. intros k. simpl.
  destruct (decide (k = h)) as [->|].
  - rewrite fn_lookup_insert. simpl. intuition congruence.
  - rewrite fn_lookup_insert_ne by done. apply Hl.
Qed.

Lemma uv__run_timers_linked cb_env fuel l fired l' :
  (∀ c h l0, linked_ok l0 → linked_ok (cb_env c h l0)) →
  linked_ok l → uv__run_timers cb_env fuel l = Returned fired l' → linked_ok l'.
Proof.
  intros Hcb. revert l fired. induction fuel as [|fuel IH]; intros l fired Hl; [done|].
  simpl. unfold run_timers_body.
  destruct (heap_min (timer_heap l)) as [h|]; [|by intros [= _ <-]].
  destruct (_ >? _); [by intros [= _ <-]|].
  destruct (timer_cb _) as [c|]; [|done].
  destruct (uv__run_timers _ _ _) as [fired0 l0| |] eqn:Hrun; [|done..].
  intros [= _ <-]. eapply IH; [|exact Hrun].
  by apply Hcb, uv_timer_again_keeps_linked, uv_timer_stop_linked.
Qed.

Lemma uv_timer_stop_unlinks h l :
  linked_ok l →
  (h ∉ timer_heap (snd (uv_timer_stop h l))) ∧
  active (timers (snd (uv_timer_stop h l)) h) = false.
Proof.
  intros Hl. split.
  - rewrite uv_timer_stop_elem_of by done. tauto.
  - by rewrite uv_timer_stop_timers, decide_True.
Qed.

(** C4, as amended: every operation keeps "linked into the heap if and
    only if active" (and linked at most once): [uv_timer_init] on a handle
    that is not linked, [uv_timer_start] (which, when it returns 0, leaves
    the handle linked and active), [uv_timer_stop] (which leaves it
    unlinked and inactive), [uv_timer_again], [uv__timer_close], and
    [uv__run_timers] when it returns, given callbacks that keep it. *)
Theorem linked_iff_active_kept l :
  linked_ok l →
  (∀ h, h ∉ timer_heap l → linked_ok (snd (uv_timer_init h l))) ∧
  (∀ h cb t r,
     let l' := snd (uv_timer_start h cb t r l) in
     linked_ok l' ∧
     (fst (uv_timer_start h cb t r l) = 0 →
        h ∈ timer_heap l' ∧ active (timers l' h) = true)) ∧
  (∀ h,
     let l' := snd (uv_timer_stop h l) in
     linked_ok l' ∧ (h ∉ timer_heap l') ∧ active (timers l' h) = false) ∧
  (∀ h, linked_ok (snd (uv_timer_again h l))) ∧
  (∀ h, linked_ok (uv__timer_close h l)) ∧
  (∀ cb_env fuel fired l',
     (∀ c h l0, linked_ok l0 → linked_ok (cb_env c h l0)) →
     uv__run_timers cb_env fuel l = Returned fired l' → linked_ok l').
Proof.
  intros Hl. split_and!.
  - intros h. by apply uv_timer_init_linked.
  - intros h cb t r l'. split; [by apply uv_timer_start_keeps_linked|].
    rewrite uv_timer_start_result. intros Hres.
    destruct cb as [c|]; [|by rewrite orb_true_r in Hres].
    destruct (closing (timers l h)) eqn:Hc; [done|].
    unfold l'. rewrite uv_timer_start_elem_of, uv_timer_start_timers by done.
    rewrite decide_True by done. auto.
  - intros h l'. split; [by apply uv_timer_stop_linked|].
    by apply uv_timer_stop_unlinks.
  - intros h. by apply uv_timer_again_keeps_linked.
  - intros h. by apply uv_timer_stop_linked.
  - intros cb_env fuel fired l' Hcb. by apply uv__run_timers_linked.
Qed.

(** ** The order of extraction *)

Lemma drain_timers_sorted n l :
  linked_ok l → loop_ordered l → (length (timer_heap l) ≤ n)%nat →
  drain_timers n l ≡ₚ timer_heap l ∧
  ∀ i j a b, (i < j)%nat →
    drain_timers n l !! i = Some a → drain_timers n l !! j = Some b →
    timer_less_than (timers l b) (timers l a) = false.
Proof.
  revert l. induction n as [|n IH]; intros l Hl Ho Hlen.
  { destruct (timer_heap l) eqn:Hh; [|simpl in Hlen; lia].
    simpl. split; [done|]. intros i j a b _ Hi. done. }
  simpl. destruct (heap_min (timer_heap l)) as [h|] eqn:Hm; cycle 1.
  { apply heap_min_None in Hm. rewrite Hm. split; [done|]. by intros i j a b _ Hi. }
  pose proof (heap_min_elem_of _ _ Hm) as Hin.
  pose proof (heap_remove_perm (node_less_than (timers l)) _ _ Hin) as Hperm.
  rewrite <-uv_timer_stop_heap in Hperm by done.
  destruct (IH (snd (uv_timer_stop h l))) as [Hp Hs].
  { by apply uv_timer_stop_linked. }
  { by apply uv_timer_stop_ordered. }
  { apply Permutation_length in Hperm. simpl in Hperm. lia. }
  split; [by rewrite Hp, <-Hperm|].
  intros i j a b Hij Hi Hj. destruct j as [|j]; [lia|]. simpl in Hj.
  destruct i as [|i]; simpl in Hi.
  - simplify_eq. apply (loop_min_least l a b Ho Hm).
    rewrite Hperm. right. rewrite <-Hp. by eapply list_elem_of_lookup_2.
  - specialize (Hs i j a b ltac:(lia) Hi Hj).
    rewrite !uv_timer_stop_timers in Hs.
    unfold timer_less_than in *. repeat case_decide; subst; simpl in *; done.
Qed.

Lemma uv_timer_start_ids h cb t r l :
  linked_ok l → ids_ok l → 0 <= timer_counter l < UINT64_MAX →
  ids_ok (snd (uv_timer_start h cb t r l)).
Proof.
  intros Hl [Hlt Hinj] Hcnt.
  destruct cb as [c|]; [|by rewrite uv_timer_start_refused by auto].
  destruct (closing (timers l h)) eqn:Hc;
    [by rewrite uv_timer_start_refused by auto|].
  assert (Hw : wrap64 (timer_counter l + 1) = timer_counter l + 1).
  { unfold wrap64, UINT64_MAX in *. apply Z.mod_small. lia. }
  assert (Hid : ∀ k, k ∈ timer_heap (snd (uv_timer_start h (Some c) t r l)) →
            (k = h ∧ start_id (timers (snd (uv_timer_start h (Some c) t r l)) k)
                     = timer_counter l) ∨
            (k ≠ h ∧ k ∈ timer_heap l ∧
             start_id (timers (snd (uv_timer_start h (Some c) t r l)) k)
               = start_id (timers l k))).
  { intros k Hk. rewrite uv_timer_start_timers by done.
    apply uv_timer_start_elem_of in Hk; [|done..].
    case_decide; subst; simpl; [by left|right]. intuition. }
  split.
  - intros k Hk. rewrite uv_timer_start_counter, Hw by done.
    destruct (Hid k Hk) as [[_ ->]|(_&Hk'&->)]; [lia|].
    specialize (Hlt k Hk'). lia.
  - intros k1 k2 Hk1 Hk2.
    destruct (Hid k1 Hk1) as [[-> ->]|(?&Hk1'&->)],
             (Hid k2 Hk2) as [[-> ->]|(?&Hk2'&->)]; try done.
    + specialize (Hlt k2 Hk2'). lia.
    + specialize (Hlt k1 Hk1'). lia.
    + by apply Hinj.
Qed.

Lemma uv_timer_stop_ids h l :
  linked_ok l → ids_ok l → ids_ok (snd (uv_timer_stop h l)).
Proof.
  intros Hl [Hlt Hinj]. split.
  - intros k Hk. apply uv_timer_stop_elem_of in Hk as [Hk _]; [|done].
    rewrite uv_timer_stop_counter, uv_timer_stop_timers.
    case_decide; subst; by apply Hlt.
  - intros k1 k2 Hk1 Hk2.
    apply uv_timer_stop_elem_of in Hk1 as [Hk1 ?]; [|done].
    apply uv_timer_stop_elem_of in Hk2 as [Hk2 ?]; [|done].
    rewrite !uv_timer_stop_timers, !decide_False by done. by apply Hinj.
Qed.

(** C3, as amended: in a loop whose heap is ordered and whose linked
    handles carry distinct start ids, below the counter, stopping the root
    over and over returns every
    linked handle, each strictly after the one before under the comparator:
    deadlines never decrease, and start ids increase where deadlines tie.
    On linked handles the comparator is the lexicographic order on
    (timeout, start_id), a strict total order.  Such loops are what
    [uv_timer_start] and [uv_timer_stop] make of one another: start ids
    stay distinct because [uv_timer_start] takes them from the counter, as
    long as the 64-bit counter has not wrapped. *)
Theorem extraction_order l :
  linked_ok l → loop_ordered l → ids_ok l →
  let hs := drain_timers (length (timer_heap l)) l in
  let lt a b := timer_less_than (timers l a) (timers l b) in
  hs ≡ₚ timer_heap l ∧
  (∀ i j a b, (i < j)%nat → hs !! i = Some a → hs !! j = Some b →
     lt a b = true ∧
     timeout (timers l a) <= timeout (timers l b) ∧
     (timeout (timers l a) = timeout (timers l b) →
        start_id (timers l a) < start_id (timers l b))) ∧
  (∀ a b, lt a b = true ↔
     timeout (timers l a) < timeout (timers l b) ∨
     (timeout (timers l a) = timeout (timers l b) ∧
      start_id (timers l a) < start_id (timers l b))) ∧
  (∀ a, lt a a = false) ∧
  (∀ a b c, lt a b = true → lt b c = true → lt a c = true) ∧
  (∀ a b, a ∈ timer_heap l → b ∈ timer_heap l → a ≠ b →
     lt a b = true ∨ lt b a = true) ∧
  (∀ h cb t r, 0 <= timer_counter l < UINT64_MAX →
     let l' := snd (uv_timer_start h cb t r l) in
     linked_ok l' ∧ loop_ordered l' ∧ ids_ok l') ∧
  (∀ h,
     let l' := snd (uv_timer_stop h l) in
     linked_ok l' ∧ loop_ordered l' ∧ ids_ok l').
Proof.
  intros Hl Ho Hids hs lt.
  destruct (drain_timers_sorted (length (timer_heap l)) l Hl Ho) as [Hp Hs]; [done|].
  fold hs in Hp, Hs.
  assert (Htot : ∀ a b, a ∈ timer_heap l → b ∈ timer_heap l → a ≠ b →
            lt b a = false → lt a b = true).
  { intros a b Ha Hb Hne. unfold lt. rewrite timer_less_than_false, timer_less_than_spec.
    destruct Hids as [_ Hinj]. specialize (Hinj a b Ha Hb).
    destruct (decide (start_id (timers l a) = start_id (timers l b))); [tauto|lia]. }
  split_and!.
  - done.
  - intros i j a b Hij Hi Hj.
    assert (lt a b = true) as Hlt.
    { apply Htot.
      - rewrite <-Hp. by eapply list_elem_of_lookup_2.
      - rewrite <-Hp. by eapply list_elem_of_lookup_2.
      - intros ->. destruct Hl as [Hnd _]. rewrite <-Hp in Hnd.
        pose proof (NoDup_lookup _ _ _ _ Hnd Hi Hj). lia.
      - by eapply Hs. }
    split; [done|]. unfold lt in Hlt. apply timer_less_than_spec in Hlt. lia.
  - intros a b. apply timer_less_than_spec.
  - intros a. unfold lt. rewrite timer_less_than_false. lia.
  - intros a b c. unfold lt. rewrite !timer_less_than_spec. lia.
  - intros a b Ha Hb Hne. destruct (lt b a) eqn:Hba; [by right|left].
    by apply Htot.
  - intros h cb t r Hcnt l'. split_and!.
    + by apply uv_timer_start_keeps_linked.
    + by apply uv_timer_start_keeps_ordered.
    + by apply uv_timer_start_ids.
  - intros h l'. split_and!.
    + by apply uv_timer_stop_linked.
    + by apply uv_timer_stop_ordered.
    + by apply uv_timer_stop_ids.
Qed.

(** ** One round of the expiry loop *)

Lemma rearmed_time h l : time (rearmed h l) = time l.
Proof. unfold rearmed. by rewrite uv_timer_again_time, uv_timer_stop_time. Qed.

Lemma rearmed_ok h l : loop_ok l → loop_ok (rearmed h l).
Proof. intros Hok. by apply uv_timer_again_keeps_ok, uv_timer_stop_keeps_ok. Qed.

Lemma stopped_again h l :
  snd (uv_timer_stop h (snd (uv_timer_stop h l))) = snd (uv_timer_stop h l).
Proof.
  rewrite (uv_timer_stop_inactive h (snd (uv_timer_stop h l))); [done|].
  by rewrite uv_timer_stop_timers, decide_True.
Qed.

(** A one-shot or closing handle stays stopped. *)
Lemma rearmed_one_shot h c l :
  timer_cb (timers l h) = Some c →
  repeat (timers l h) = 0 ∨ closing (timers l h) = true →
  rearmed h l = snd (uv_timer_stop h l).
Proof.
  intros Hcb Hre. unfold rearmed.
  assert (Hcb' : timer_cb (timers (snd (uv_timer_stop h l)) h) = Some c).
  { by rewrite uv_timer_stop_timers, decide_True. }
  destruct (decide (repeat (timers l h) = 0)) as [Hr|Hr].
  { erewrite uv_timer_again_one_shot; [done..|].
    by rewrite uv_timer_stop_timers, decide_True. }
  destruct Hre as [?|Hc]; [done|].
  erewrite uv_timer_again_repeating; [|done|]; cycle 1.
  { by rewrite uv_timer_stop_timers, decide_True. }
  simpl. rewrite uv_timer_start_refused; [by rewrite stopped_again|].
  left. rewrite stopped_again. by rewrite uv_timer_stop_timers, decide_True.
Qed.

(** A repeating handle is started again, [repeat] ticks from the loop time. *)
Lemma rearmed_repeating h c l :
  timer_cb (timers l h) = Some c →
  repeat (timers l h) ≠ 0 → closing (timers l h) = false →
  rearmed h l =
    snd (uv_timer_start h (Some c) (repeat (timers l h)) (repeat (timers l h))
           (snd (uv_timer_stop h l))).
Proof.
  intros Hcb Hr Hc. unfold rearmed.
  erewrite uv_timer_again_repeating; cycle 1.
  { by rewrite uv_timer_stop_timers, decide_True. }
  { by rewrite uv_timer_stop_timers, decide_True. }
  simpl. rewrite stopped_again, uv_timer_stop_timers, decide_True by done. done.
Qed.

Lemma rearmed_timers_ne h l k : k ≠ h → timers (rearmed h l) k = timers l k.
Proof.
  intros Hk.
  destruct (timer_cb (timers l h)) as [c|] eqn:Hcb; cycle 1.
  { unfold rearmed. rewrite uv_timer_again_never_started.
    - simpl. by rewrite uv_timer_stop_timers, decide_False.
    - by rewrite uv_timer_stop_timers, decide_True. }
  destruct (decide (repeat (timers l h) = 0)) as [Hr|Hr].
  { erewrite rearmed_one_shot by eauto.
    by rewrite uv_timer_stop_timers, decide_False. }
  destruct (closing (timers l h)) eqn:Hc.
  { erewrite rearmed_one_shot by eauto.
    by rewrite uv_timer_stop_timers, decide_False. }
  erewrite rearmed_repeating by done.
  rewrite uv_timer_start_timers, decide_False by
    (try done; by rewrite uv_timer_stop_timers, decide_True).
  by rewrite uv_timer_stop_timers, decide_False.
Qed.

Lemma rearmed_timers_repeating h c l :
  timer_cb (timers l h) = Some c →
  repeat (timers l h) ≠ 0 → closing (timers l h) = false →
  timers (rearmed h l) h =
    armed c (clamped (time l) (repeat (timers l h))) (repeat (timers l h))
      (timer_counter l).
Proof.
  intros Hcb Hr Hc. erewrite rearmed_repeating by done.
  rewrite uv_timer_start_timers, decide_True by
    (try done; by rewrite uv_timer_stop_timers, decide_True).
  by rewrite uv_timer_stop_time, uv_timer_stop_counter.
Qed.

(** A handle that has just been started again is not due. *)
Lemma clamped_after now r :
  uint64 now → now < UINT64_MAX → uint64 r → r ≠ 0 → now < clamped now r.
Proof.
  intros Hn Hlt Hr Hr0. rewrite clamped_timeout_deadline by done.
  unfold deadline, uint64 in *. lia.
Qed.

Lemma due_agree l l' (a : list handle) :
  time l' = time l →
  (∀ k, k ∈ a → timeout (timers l' k) = timeout (timers l k)) →
  filter (λ k, timeout (timers l' k) <= time l') a =
  filter (λ k, timeout (timers l k) <= time l) a.
Proof.
  intros Ht. induction a as [|x a IH]; intros Hag; [done|].
  rewrite !filter_cons, IH by (intros k Hk; apply Hag; by right).
  rewrite Ht, (Hag x) by left. done.
Qed.

Lemma due_elem_of l k :
  k ∈ due l ↔ timeout (timers l k) <= time l ∧ k ∈ timer_heap l.
Proof. unfold due. by rewrite list_elem_of_filter. Qed.

Lemma due_nil l :
  (∀ k, k ∈ timer_heap l → time l < timeout (timers l k)) → due l = [].
Proof.
  unfold due. induction (timer_heap l) as [|x a IH]; intros Hlate; [done|].
  rewrite filter_cons_False by (specialize (Hlate x ltac:(left)); lia).
  apply IH. intros k Hk. apply Hlate. by right.
Qed.

Lemma due_rearmed h l :
  loop_ok l → time l < UINT64_MAX →
  h ∈ timer_heap l → timeout (timers l h) <= time l →
  due l ≡ₚ h :: due (rearmed h l).
Proof.
  intros (Hl&Ho&Hnow&Hwf&Hcb) Hmax Hin Hdue.
  destruct (Hcb h Hin) as [c Hc].
  pose proof (heap_remove_perm (node_less_than (timers l)) _ _ Hin) as Hperm.
  rewrite <-uv_timer_stop_heap in Hperm by done.
  assert (Hout : h ∉ timer_heap (snd (uv_timer_stop h l)))
    by (rewrite uv_timer_stop_elem_of by done; tauto).
  unfold due at 1. rewrite Hperm, filter_cons_True by done.
  apply Permutation_skip.
  assert (Hrest : ∀ l', time l' = time l →
            (∀ k, k ≠ h → timers l' k = timers l k) →
            filter (λ k, timeout (timers l' k) <= time l')
              (timer_heap (snd (uv_timer_stop h l))) =
            filter (λ k, timeout (timers l k) <= time l)
              (timer_heap (snd (uv_timer_stop h l)))).
  { intros l' Ht Hk. apply due_agree; [done|].
    intros k Hk'. rewrite Hk; [done|]. by intros ->. }
  destruct (decide (repeat (timers l h) ≠ 0 ∧ closing (timers l h) = false))
    as [[Hr Hcl]|Hno].
  - assert (timer_heap (rearmed h l) ≡ₚ h :: timer_heap (snd (uv_timer_stop h l)))
      as Hheap.
    { rewrite (rearmed_repeating h c l Hc Hr Hcl).
      rewrite uv_timer_start_heap.
      - by rewrite stopped_again.
      - by rewrite uv_timer_stop_timers, decide_True. }
    unfold due. rewrite Hheap, filter_cons_False; cycle 1.
    { rewrite (rearmed_timers_repeating h c l Hc Hr Hcl), rearmed_time. simpl.
      destruct (Hwf h) as [_ Hrep].
      pose proof (clamped_after (time l) (repeat (timers l h)) Hnow Hmax Hrep Hr).
      lia. }
    rewrite (Hrest (rearmed h l)); [done|apply rearmed_time|].
    intros k Hk. by apply rearmed_timers_ne.
  - assert (repeat (timers l h) = 0 ∨ closing (timers l h) = true) as Hre.
    { destruct (decide (repeat (timers l h) = 0)); [by left|right].
      destruct (closing (timers l h)); [done|]. exfalso. by apply Hno. }
    unfold due. rewrite (rearmed_one_shot h c l Hc Hre).
    rewrite (Hrest (snd (uv_timer_stop h l))); [done|apply uv_timer_stop_time|].
    intros k Hk. by rewrite uv_timer_stop_timers, decide_False.
Qed.

Lemma rearmed_cb h c l :
  timer_cb (timers l h) = Some c → timer_cb (timers (rearmed h l) h) = Some c.
Proof.
  intros Hcb.
  destruct (decide (repeat (timers l h) ≠ 0 ∧ closing (timers l h) = false))
    as [[Hr Hcl]|Hno].
  - by rewrite (rearmed_timers_repeating h c l Hcb Hr Hcl).
  - rewrite (rearmed_one_shot h c l Hcb).
    + by rewrite uv_timer_stop_timers, decide_True.
    + destruct (decide (repeat (timers l h) = 0)); [by left|right].
      destruct (closing (timers l h)); [done|]. exfalso. by apply Hno.
Qed.

Lemma same_schedule_refl t : same_schedule t t.
Proof. by unfold same_schedule. Qed.

Lemma same_schedule_trans t1 t2 t3 :
  same_schedule t1 t2 → same_schedule t2 t3 → same_schedule t1 t3.
Proof. unfold same_schedule. intuition congruence. Qed.

Section expiry.
Variable cb_env : cb_id → handle → uv_loop_t → uv_loop_t.

Lemma run_timers_body_None l :
  run_timers_body cb_env l = None ↔
  timer_heap l = [] ∨
  ∃ h, heap_min (timer_heap l) = Some h ∧ time l < timeout (timers l h).
Proof.
  unfold run_timers_body.
  destruct (heap_min (timer_heap l)) as [h|] eqn:Hm.
  - destruct (Z.gtb_spec (timeout (timers l h)) (time l)).
    + split; [|done]. intros _. right. eauto.
    + split; [by destruct (timer_cb _)|].
      intros [Hnil|(k&[= <-]&?)]; [|lia].
      apply heap_min_None in Hnil. congruence.
  - split; [|done]. intros _. left. by apply heap_min_None.
Qed.

Lemma run_timers_body_due l h :
  heap_min (timer_heap l) = Some h → timeout (timers l h) <= time l →
  run_timers_body cb_env l =
    match timer_cb (timers (rearmed h l) h) with
    | None => Some (inl tt)
    | Some cb => Some (inr (h, cb_env cb h (rearmed h l)))
    end.
Proof.
  intros Hm Hdue. unfold run_timers_body. rewrite Hm.
  destruct (Z.gtb_spec (timeout (timers l h)) (time l)); [lia|done].
Qed.

(** With an ordered heap the loop breaks exactly when nothing is due. *)
Lemma run_timers_body_idle l :
  loop_ordered l → run_timers_body cb_env l = None ↔ due l = [].
Proof.
  intros Ho. rewrite run_timers_body_None. split.
  - intros [Hnil|(h&Hm&Hlate)]; [unfold due; by rewrite Hnil|].
    apply due_nil. intros k Hk.
    pose proof (loop_min_least l h k Ho Hm Hk) as Hle.
    apply timer_less_than_false in Hle. lia.
  - intros Hdue. destruct (heap_min (timer_heap l)) as [h|] eqn:Hm;
      [right|left; by apply heap_min_None].
    exists h. split; [done|].
    destruct (Z_lt_le_dec (time l) (timeout (timers l h))) as [|Hle]; [done|].
    exfalso. eapply (filter_nil_not_elem_of _ _ h Hdue Hle).
    by apply heap_min_elem_of.
Qed.

Lemma uv__run_timers_more fuel fuel' l fired l' :
  (fuel ≤ fuel')%nat → uv__run_timers cb_env fuel l = Returned fired l' →
  uv__run_timers cb_env fuel' l = Returned fired l'.
Proof.
  revert fuel' l fired. induction fuel as [|fuel IH]; intros fuel' l fired Hle; [done|].
  destruct fuel' as [|fuel']; [lia|]. simpl.
  destruct (run_timers_body cb_env l) as [[[]|[h l0]]|]; try done.
  destruct (uv__run_timers cb_env fuel l0) as [f0 l1| |] eqn:Hrun; try done.
  intros [= <- <-]. by rewrite (IH fuel' l0 f0 ltac:(lia) Hrun).
Qed.
End expiry.

(** ** The expiry loop *)

(** The expiry loop itself never changes the cached loop time: if the
    callbacks leave it as it is, so does the whole call. *)
Lemma uv__run_timers_time cb_env fuel l fired l' :
  (∀ c h l0, time (cb_env c h l0) = time l0) →
  uv__run_timers cb_env fuel l = Returned fired l' → time l' = time l.
Proof.
  intros Hcb. revert l fired.
  induction fuel as [|fuel IH]; intros l fired; [done|]. simpl.
  destruct (run_timers_body cb_env l) as [[[]|[h l0]]|] eqn:Hb; try done.
  - destruct (uv__run_timers cb_env fuel l0) as [f0 l1| |] eqn:Hrun; try done.
    intros [= _ <-]. rewrite (IH _ _ Hrun).
    unfold run_timers_body in Hb.
    destruct (heap_min (timer_heap l)) as [r|]; [|done].
    destruct (timeout (timers l r) >? time l); [done|].
    destruct (timer_cb _) as [c|]; [|done].
    injection Hb as _ <-.
    by rewrite Hcb, uv_timer_again_time, uv_timer_stop_time.
  - by intros [= _ <-].
Qed.

(** C1, as amended: from every state [uv__run_timers] works round by
    round.  A round breaks exactly when the heap is empty or the deadline
    of the root is strictly after the cached loop time; otherwise
    [uv_timer_stop] is called on the root (which marks it inactive and, in
    a loop where linked means active, unlinks it), then [uv_timer_again],
    and only then is its callback called, on the state these two left.
    Neither of the two changes the cached loop time, and if no callback
    changes it either, the loop the call returns has the time it started
    with.  The call returns only from a state in which a round breaks.  In
    an ordered heap the root is a least handle. *)
Theorem uv__run_timers_protocol cb_env l :
  (run_timers_body cb_env l = None ↔
     timer_heap l = [] ∨
     ∃ h, heap_min (timer_heap l) = Some h ∧ time l < timeout (timers l h)) ∧
  (∀ h, heap_min (timer_heap l) = Some h → timeout (timers l h) <= time l →
     let l1 := snd (uv_timer_stop h l) in
     let l2 := snd (uv_timer_again h l1) in
     (linked_ok l → h ∉ timer_heap l1) ∧ active (timers l1 h) = false ∧
     time l1 = time l ∧ time l2 = time l ∧
     run_timers_body cb_env l =
       match timer_cb (timers l2 h) with
       | None => Some (inl tt)
       | Some cb => Some (inr (h, cb_env cb h l2))
       end) ∧
  (∀ fuel,
     uv__run_timers cb_env (S fuel) l =
       match run_timers_body cb_env l with
       | None => Returned [] l
       | Some (inl _) => NullCall
       | Some (inr (h, l')) =>
           match uv__run_timers cb_env fuel l' with
           | Returned fired l'' => Returned (h :: fired) l''
           | r => r
           end
       end) ∧
  (∀ fuel fired l',
     uv__run_timers cb_env fuel l = Returned fired l' →
     run_timers_body cb_env l' = None) ∧
  (loop_ordered l → ∀ h k, heap_min (timer_heap l) = Some h →
     k ∈ timer_heap l → timer_less_than (timers l k) (timers l h) = false) ∧
  ((∀ c h l0, time (cb_env c h l0) = time l0) →
   ∀ fuel fired l',
     uv__run_timers cb_env fuel l = Returned fired l' → time l' = time l).
Proof.
  split_and!.
  - apply run_timers_body_None.
  - intros h Hm Hdue l1 l2. split_and!.
    + intros Hl. by apply uv_timer_stop_unlinks.
    + unfold l1. by rewrite uv_timer_stop_timers, decide_True.
    + apply uv_timer_stop_time.
    + unfold l2, l1. by rewrite uv_timer_again_time, uv_timer_stop_time.
    + by apply run_timers_body_due.
  - done.
  - intros fuel. revert l.
    induction fuel as [|fuel IH]; intros l fired l'; [done|]. simpl.
    destruct (run_timers_body cb_env l) as [[[]|[h l0]]|] eqn:Hb; try done.
    + destruct (uv__run_timers cb_env fuel l0) as [f0 l1| |] eqn:Hrun; try done.
      intros [= _ <-]. by eapply IH.
    + by intros [= _ <-].
  - intros Ho h k. by apply loop_min_least.
  - intros Hcb fuel fired l'. by apply uv__run_timers_time.
Qed.

Section passive_callbacks.
Variable cb_env : cb_id → handle → uv_loop_t → uv_loop_t.
Hypothesis Hpassive : passive cb_env.

Lemma passive_ok c h l : loop_ok l → loop_ok (cb_env c h l).
Proof.
  intros ([Hnd Hl]&Ho&Hnow&Hwf&Hcb).
  destruct (Hpassive c h l) as (Ht&_&Hh&Hs).
  split_and!.
  - split; rewrite Hh; [done|]. intros k.
    destruct (Hs k) as (_&_&_&->&_). apply Hl.
  - unfold loop_ordered. rewrite Hh. eapply heap_ok_agree; [|exact Ho].
    intros k _. by destruct (Hs k) as (_&->&->&_).
  - by rewrite Ht.
  - intros k. destruct (Hs k) as (_&Hto&_&_&_&Hr).
    split; [rewrite Hto; apply Hwf|apply Hr, Hwf].
  - intros k. rewrite Hh. destruct (Hs k) as (->&_). apply Hcb.
Qed.

Lemma passive_due c h l : due (cb_env c h l) = due l.
Proof.
  destruct (Hpassive c h l) as (Ht&_&Hh&Hs).
  unfold due. rewrite Hh. apply due_agree; [done|].
  intros k _. by destruct (Hs k) as (_&->&_).
Qed.

Lemma run_timers_fires n l :
  loop_ok l → time l < UINT64_MAX → (length (due l) ≤ n)%nat →
  ∃ fired l',
    uv__run_timers cb_env (S n) l = Returned fired l' ∧
    fired ≡ₚ due l ∧ loop_ok l' ∧ time l' = time l ∧ due l' = [] ∧
    (∀ k, k ∉ due l → same_schedule (timers l k) (timers l' k)) ∧
    (quiet cb_env → ∀ k, k ∈ due l →
       repeat (timers l k) ≠ 0 → closing (timers l k) = false →
       timeout (timers l' k) = clamped (time l) (repeat (timers l k)) ∧
       active (timers l' k) = true).
Proof.
  revert l. induction n as [|n IH]; intros l Hok Hmax Hlen.
  all: destruct (run_timers_body cb_env l) as [x|] eqn:Hbody; cycle 1.
  1,3: (apply run_timers_body_idle in Hbody as Hdue; [|apply Hok];
        exists [], l; simpl; rewrite Hbody, Hdue; split_and!; try done;
        try (intros k _; apply same_schedule_refl);
        intros _ k Hk; by apply elem_of_nil in Hk).
  all: assert (∃ h, heap_min (timer_heap l) = Some h ∧
                    timeout (timers l h) <= time l) as (h&Hm&Hdue).
  1,3: (unfold run_timers_body in Hbody;
        destruct (heap_min (timer_heap l)) as [h|]; [|done];
        destruct (Z.gtb_spec (timeout (timers l h)) (time l)); [done|];
        exists h; split; [done|lia]).
  all: pose proof (heap_min_elem_of _ _ Hm) as Hin.
  all: pose proof (due_rearmed h l Hok Hmax Hin Hdue) as Hperm.
  all: try (rewrite Hperm in Hlen; simpl in Hlen; lia).
  destruct Hok as (Hl&Ho&Hnow&Hwf&Hcb).
  destruct (Hcb h Hin) as [c Hc].
  assert (Hok : loop_ok l) by done.
  pose proof (rearmed_cb h c l Hc) as Hc'.
  clear x Hbody.
  pose proof (run_timers_body_due cb_env l h Hm Hdue) as Hbody.
  rewrite Hc' in Hbody.
  set (l3 := cb_env c h (rearmed h l)) in *.
  destruct (Hpassive c h (rearmed h l)) as (Ht3&_&Hh3&Hs3). fold l3 in Ht3, Hh3, Hs3.
  assert (Hdue3 : due l3 = due (rearmed h l)) by apply passive_due.
  rewrite <-Hdue3 in Hperm.
  destruct (IH l3) as (fired&l'&Hrun&Hfired&Hok'&Ht'&Hdue'&Hsame&Hquiet).
  { by apply passive_ok, rearmed_ok. }
  { by rewrite Ht3, rearmed_time. }
  { rewrite Hperm in Hlen. simpl in Hlen. lia. }
  assert (Hnd : NoDup (due l)) by (apply list.NoDup_filter; by destruct Hl).
  rewrite Hperm in Hnd. apply NoDup_cons_1_1 in Hnd as Hh.
  exists (h :: fired), l'. split_and!.
  - change (uv__run_timers cb_env (S (S n)) l) with
      (match run_timers_body cb_env l with
       | None => Returned [] l
       | Some (inl _) => NullCall
       | Some (inr (h, l')) =>
           match uv__run_timers cb_env (S n) l' with
           | Returned fired l'' => Returned (h :: fired) l''
           | r => r
           end
       end).
    by rewrite Hbody, Hrun.
  - by rewrite Hperm, Hfired.
  - done.
  - by rewrite Ht', Ht3, rearmed_time.
  - done.
  - intros k Hk. rewrite Hperm in Hk. apply not_elem_of_cons in Hk as [Hkh Hk].
    eapply same_schedule_trans; [|by apply Hsame].
    rewrite <-(rearmed_timers_ne h l k Hkh). apply Hs3.
  - intros Hq k Hk Hr Hcl. rewrite Hperm in Hk.
    apply elem_of_cons in Hk as [->|Hk].
    + destruct (Hsame h Hh) as (_&->&_&->&_).
      destruct (Hs3 h) as (_&->&_&->&_).
      by rewrite (rearmed_timers_repeating h c l Hc Hr Hcl).
    + assert (k ≠ h) as Hkh by (by intros ->).
      destruct Hq as [_ Hq].
      assert (repeat (timers l3 k) = repeat (timers l k)) as Hrk.
      { unfold l3. by rewrite Hq, rearmed_timers_ne. }
      assert (closing (timers l3 k) = closing (timers l k)) as Hck.
      { destruct (Hs3 k) as (_&_&_&_&->&_). by rewrite rearmed_timers_ne. }
      destruct (Hquiet (conj Hpassive Hq) k Hk) as [Hto Hact];
        [by rewrite Hrk|by rewrite Hck|].
      by rewrite Hto, Hrk, Ht3, rearmed_time.
Qed.
End passive_callbacks.

(** ** Termination of the expiry loop *)

(** C8, as amended: on a well-formed loop, with callbacks that leave the
    clock and the timers alone (they neither refresh the cached loop time
    nor initialise, start, stop, re-arm or close a timer), and a loop time
    below 2^64 - 1, [uv__run_timers] returns within
    one round per linked handle (plus the round that breaks); the handles
    it fires are exactly those that were due, each once; the loop time is
    unchanged and no linked handle is due any more.  The reason: a
    repeating handle that is started again gets a deadline strictly after
    the loop time. *)
Theorem uv__run_timers_bounded cb_env l :
  passive cb_env → loop_ok l → time l < UINT64_MAX →
  (∃ fired l',
     uv__run_timers cb_env (S (length (timer_heap l))) l = Returned fired l' ∧
     (∀ fuel, (length (due l) < fuel)%nat →
        uv__run_timers cb_env fuel l = Returned fired l') ∧
     fired ≡ₚ due l ∧ NoDup fired ∧
     (length fired ≤ length (timer_heap l))%nat ∧
     time l' = time l ∧
     (∀ k, k ∈ timer_heap l' → time l' < timeout (timers l' k))) ∧
  (∀ h c, timer_cb (timers l h) = Some c →
     repeat (timers l h) ≠ 0 → closing (timers l h) = false →
     timeout (timers (rearmed h l) h) = clamped (time l) (repeat (timers l h)) ∧
     time (rearmed h l) < timeout (timers (rearmed h l) h)).
Proof.
  intros Hp Hok Hmax. split.
  - destruct (run_timers_fires cb_env Hp (length (due l)) l Hok Hmax)
      as (fired&l'&Hrun&Hfired&Hok'&Ht&Hdue&_); [done|].
    assert (Hle : (length (due l) ≤ length (timer_heap l))%nat)
      by apply length_filter.
    exists fired, l'. split_and!.
    + eapply uv__run_timers_more; [|exact Hrun]. lia.
    + intros fuel Hfuel. eapply uv__run_timers_more; [|exact Hrun]. lia.
    + done.
    + rewrite Hfired. unfold due. apply list.NoDup_filter.
      by destruct Hok as [[? _] _].
    + by rewrite Hfired.
    + done.
    + intros k Hk.
      destruct (Z_lt_le_dec (time l') (timeout (timers l' k))) as [|Hle']; [done|].
      exfalso. by eapply (filter_nil_not_elem_of _ _ k Hdue Hle').
  - intros h c Hc Hr Hcl.
    rewrite (rearmed_timers_repeating h c l Hc Hr Hcl), rearmed_time. simpl.
    split; [done|].
    destruct Hok as (_&_&Hnow&Hwf&_). destruct (Hwf h) as [_ Hrep].
    by apply clamped_after.
Qed.

(** ** Re-arming *)


(** ** The scenarios *)

Module ScenarioFacts.
Import Scenario.

Lemma uint64_small z : 0 <= z <= 1000 → uint64 z.
Proof. unfold uint64, UINT64_MAX. lia. Qed.

Lemma loop0_ok : loop_ok loop0.
Proof.
  split_and!.
  - split; [constructor|]. intros h. simpl. split; [by intros ?%elem_of_nil|done].
  - intros p c x y _ Hp. done.
  - by apply uint64_small.
  - intros h. split; by apply uint64_small.
  - by intros h ?%elem_of_nil.
Qed.

Lemma loop0_ids : ids_ok loop0.
Proof. split; [by intros h ?%elem_of_nil|by intros h k ?%elem_of_nil]. Qed.

Lemma started_ok h d r l : uint64 d → uint64 r → loop_ok l → loop_ok (started h d r l).
Proof. apply uv_timer_start_keeps_ok. Qed.

Lemma at_time_ok now l : uint64 now → loop_ok l → loop_ok (at_time now l).
Proof. intros Hnow (Hl&Ho&_&Hwf&Hcb). by split_and!. Qed.

Lemma idle_quiet : quiet idle.
Proof.
  split; [|done]. intros c h l. by split_and!.
Qed.

Lemma one_ok : loop_ok one.
Proof. apply started_ok; [by apply uint64_small..|apply loop0_ok]. Qed.

Lemma four_ok : loop_ok four.
Proof.
  repeat (apply started_ok; [by apply uint64_small..|]). apply loop0_ok.
Qed.

Lemma started_ids h d r l :
  loop_ok l → ids_ok l → 0 <= timer_counter l < UINT64_MAX →
  ids_ok (started h d r l).
Proof. intros [Hl _]. by apply uv_timer_start_ids. Qed.

Ltac scenario_ok :=
  repeat first [ apply loop0_ok | apply loop0_ids
               | apply at_time_ok | apply started_ok | apply started_ids
               | by apply uint64_small
               | by (vm_compute; split; congruence) ].

Lemma four_ids : ids_ok four.
Proof. unfold four. scenario_ok. Qed.

Lemma drift_ok : loop_ok drift.
Proof. unfold drift. scenario_ok. Qed.

Lemma four_late_ok : loop_ok four_late.
Proof. unfold four_late, four. scenario_ok. Qed.

Lemma saturated_ok : loop_ok saturated.
Proof.
  unfold saturated. apply at_time_ok; [|scenario_ok].
  unfold uint64, UINT64_MAX. lia.
Qed.

Lemma saturated_spinning : spinning saturated.
Proof. unfold spinning. vm_compute. by split_and!. Qed.

Lemma spinning_round l :
  spinning l →
  run_timers_body idle l = Some (inr (0%nat, rearmed 0%nat l)) ∧
  spinning (rearmed 0%nat l).
Proof.
  intros (Ht&Hh&Hc&Hto&Hr&Ha&Hcl).
  assert (Hr0 : repeat (timers l 0%nat) ≠ 0) by lia.
  split.
  - rewrite (run_timers_body_due idle l 0%nat); [|by rewrite Hh|lia].
    by rewrite (rearmed_cb 0%nat 1%nat l Hc).
  - unfold spinning.
    rewrite (rearmed_timers_repeating 0%nat 1%nat l Hc Hr0 Hcl), rearmed_time.
    rewrite Ht, Hr. split_and!; try done.
    rewrite (rearmed_repeating 0%nat 1%nat l Hc Hr0 Hcl).
    rewrite uv_timer_start_accepted by
      (by rewrite uv_timer_stop_timers, decide_True).
    simpl. rewrite stopped_again, (uv_timer_stop_active 0%nat l Ha). simpl.
    by rewrite Hh.
Qed.

Lemma spinning_forever fuel l :
  spinning l → uv__run_timers idle fuel l = OutOfFuel.
Proof.
  revert l. induction fuel as [|fuel IH]; intros l Hs; [done|].
  destruct (spinning_round l Hs) as [Hb Hs']. simpl. rewrite Hb.
  by rewrite IH.
Qed.

(** *** The operations evaluated *)

Example four_heap :
  timer_heap four = [0; 3; 2; 1]%nat ∧ timer_counter four = 4 ∧
  uv__next_timeout four = 5 ∧ uv__next_timeout loop0 = -1.
Proof. vm_compute. by split_and!. Qed.

(** All four are due at 35; the repeating one is linked again, for 45. *)
Example four_late_run :
  match uv__run_timers idle 5 four_late with
  | Returned fired l' =>
      fired = [0; 3; 2; 1]%nat ∧ timer_heap l' = [2%nat] ∧
      timeout (timers l' 2%nat) = 45 ∧ uv__next_timeout l' = 10
  | _ => False
  end.
Proof. vm_compute. by split_and!. Qed.

(** Repeat drift: one firing, and the next deadline is 45, not 40. *)
Example drift_run :
  match uv__run_timers idle 2 drift with
  | Returned fired l' =>
      fired = [0%nat] ∧ timer_heap l' = [0%nat] ∧
      timeout (timers l' 0%nat) = 45 ∧ start_id (timers l' 0%nat) = 1
  | _ => False
  end.
Proof. vm_compute. by split_and!. Qed.

(** Starting a running timer again cancels the old schedule. *)
Example restart_cancels :
  timer_heap (started 0%nat 5 0 (started 0%nat 100 0 loop0)) = [0%nat] ∧
  timeout (timers (started 0%nat 5 0 (started 0%nat 100 0 loop0)) 0%nat) = 5.
Proof. vm_compute. by split_and!. Qed.

Example due_in :
  uv_timer_get_due_in 0%nat (at_time 60 (started 0%nat 50 0 loop0)) = 0 ∧
  uv_timer_get_due_in 0%nat (at_time 40 (started 0%nat 50 0 loop0)) = 10.
Proof. vm_compute. by split_and!. Qed.

(** *** Where the claims fail as stated *)

(** Initialising a handle that is still linked leaves it in the heap
    and marks it inactive. *)
Lemma reinit_breaks_linked : linked_ok one ∧ ¬ linked_ok reinitialised.
Proof.
  split; [apply one_ok|]. intros [_ Hl].
  assert (0%nat ∈ timer_heap reinitialised) as Hin by (vm_compute; left).
  apply Hl in Hin. vm_compute in Hin. discriminate.
Qed.


(** With the loop time at 2^64 - 1 a repeating timer is due again as
    soon as it is re-armed: the expiry loop never returns, though the
    callback does nothing. *)
Lemma saturated_clock_spins :
  passive idle ∧ loop_ok saturated ∧ time saturated = UINT64_MAX ∧
  ∀ fuel, uv__run_timers idle fuel saturated = OutOfFuel.
Proof.
  split_and!; [apply idle_quiet|apply saturated_ok|done|].
  intros fuel. apply spinning_forever, saturated_spinning.
Qed.

(** *** Start ids after the counter has wrapped *)

Lemma one_churned : churned 1 one.
Proof. unfold churned. vm_compute. by split_and!. Qed.

Lemma churn_step_churned n l : churned n l → churned (n + 1) (churn_step l).
Proof.
  intros (Hh&Hk&Ha&Hcl&Ht&Hc). unfold churn_step.
  set (l1 := snd (uv_timer_start 2%nat (Some 1%nat) 9 0 l)).
  assert (H0 : timers l 0%nat = timers one 0%nat) by by apply Hk.
  assert (Hl1 : l1 =
    {| time := 0; timer_counter := wrap64 (timer_counter l + 1);
       timer_heap := [0; 2]%nat;
       timers := <[2%nat := armed 1%nat 9 0 (timer_counter l)]>
                   (<[2%nat := set_active false (armed 1%nat 9 0 (timer_counter l))]>
                      (timers l)) |}).
  { unfold l1. rewrite uv_timer_start_accepted by done. simpl.
    rewrite uv_timer_stop_inactive by done. simpl. rewrite Ht, Hh.
    unfold heap_insert. simpl. unfold node_less_than.
    rewrite fn_lookup_insert, fn_lookup_insert_ne, H0 by done.
    reflexivity. }
  assert (Ha1 : active (timers l1 2%nat) = true)
    by (rewrite Hl1; reflexivity).
  rewrite (uv_timer_stop_active _ _ Ha1). rewrite Hl1. simpl.
  unfold churned. simpl. split_and!.
  - reflexivity.
  - intros k Hk2. rewrite !fn_lookup_insert_ne by done. by apply Hk.
  - reflexivity.
  - reflexivity.
  - reflexivity.
  - rewrite Hc. unfold wrap64. by rewrite Zplus_mod_idemp_l.
Qed.

Lemma churn_step_ok l : loop_ok l → loop_ok (churn_step l).
Proof.
  intros Hok. apply uv_timer_stop_keeps_ok, uv_timer_start_keeps_ok;
    [by apply uint64_small..|done].
Qed.

Lemma churn_churned p : loop_ok (churn p one) ∧ churned (1 + Z.pos p) (churn p one).
Proof.
  unfold churn. induction p as [|p [IH1 IH2]] using Pos.peano_ind.
  - split; [apply churn_step_ok, one_ok|apply (churn_step_churned 1), one_churned].
  - rewrite Pos.iter_succ. split; [by apply churn_step_ok|].
    replace (1 + Z.pos (Pos.succ p)) with (1 + Z.pos p + 1) by lia.
    by apply churn_step_churned.
Qed.

Lemma wrapped_churned : loop_ok wrapped ∧ churned 0 wrapped.
Proof.
  destruct (churn_churned (Z.to_pos UINT64_MAX)) as [Hok (Hh&Hk&Ha&Hcl&Ht&Hc)].
  unfold wrapped, churned.
  refine (conj Hok (conj Hh (conj Hk (conj Ha (conj Hcl (conj Ht _)))))).
  rewrite Hc. reflexivity.
Qed.

(** What a start with delay 5 makes of a state whose counter is back
    at 0. *)
Lemma churned_started w :
  loop_ok w → churned 0 w →
  loop_ok (started 1%nat 5 0 w) ∧
  0%nat ∈ timer_heap (started 1%nat 5 0 w) ∧
  1%nat ∈ timer_heap (started 1%nat 5 0 w) ∧
  timers (started 1%nat 5 0 w) 0%nat = armed 1%nat 5 0 0 ∧
  timers (started 1%nat 5 0 w) 1%nat = armed 1%nat 5 0 0.
Proof.
  intros Hok (Hh&Hk&_&_&Ht&Hc).
  assert (Hopen : closing (timers w 1%nat) = false) by by rewrite Hk.
  unfold started. split_and!.
  - apply uv_timer_start_keeps_ok; [by apply uint64_small..|done].
  - apply uv_timer_start_elem_of; [done|apply Hok|]. right. rewrite Hh. by left.
  - apply uv_timer_start_elem_of; [done|apply Hok|]. by left.
  - rewrite uv_timer_start_timers, decide_False by done. by rewrite Hk.
  - rewrite uv_timer_start_timers, decide_True by done. by rewrite Ht, Hc.
Qed.

(** After 2^64 starts the counter hands out a start id a second time: two
    linked handles have the same deadline and the same start id, and
    neither is below the other. *)
Lemma start_ids_clash :
  linked_ok clash ∧ loop_ordered clash ∧
  0%nat ∈ timer_heap clash ∧ 1%nat ∈ timer_heap clash ∧
  timeout (timers clash 0%nat) = 5 ∧ timeout (timers clash 1%nat) = 5 ∧
  start_id (timers clash 0%nat) = 0 ∧ start_id (timers clash 1%nat) = 0 ∧
  timer_less_than (timers clash 0%nat) (timers clash 1%nat) = false ∧
  timer_less_than (timers clash 1%nat) (timers clash 0%nat) = false ∧
  ¬ ids_ok clash.
Proof.
  destruct (churned_started wrapped (proj1 wrapped_churned) (proj2 wrapped_churned))
    as ((Hl&Ho&_)&Hin0&Hin1&H0&H1).
  unfold clash.
  refine (conj Hl (conj Ho (conj Hin0 (conj Hin1 _)))).
  rewrite H0, H1.
  split_and!; [reflexivity..|].
  intros [_ Hinj]. specialize (Hinj 0%nat 1%nat Hin0 Hin1).
  rewrite H0, H1 in Hinj. specialize (Hinj eq_refl). discriminate.
Qed.

(** *** Callbacks that do not start, stop or re-arm a timer *)

Lemma refreshing_spares_timers now c h l :
  timer_counter (refreshing now c h l) = timer_counter l ∧
  timer_heap (refreshing now c h l) = timer_heap l ∧
  timers (refreshing now c h l) = timers l.
Proof. by split_and!. Qed.

(** Refreshing the clock to 45 makes the repeating timer of [drift],
    re-armed for 45, due again: it fires twice in one call. *)
Lemma refreshing_fires_twice :
  loop_ok drift ∧ time drift = 35 ∧ timer_heap drift = [0%nat] ∧
  timer_cb (timers drift 0%nat) = Some 1%nat ∧
  timeout (timers drift 0%nat) = 10 ∧ repeat (timers drift 0%nat) = 10 ∧
  closing (timers drift 0%nat) = false ∧
  match uv__run_timers (refreshing 45) 3 drift with
  | Returned fired l' =>
      fired = [0; 0]%nat ∧ time l' = 45 ∧ timeout (timers l' 0%nat) = 55
  | _ => False
  end.
Proof. split; [apply drift_ok|]. vm_compute. by split_and!. Qed.

(** Refreshing the clock to 25 with the four timers at 7 fires the two
    that were not due at the cached time as well. *)
Lemma refreshing_fires_early :
  time four_early = 7 ∧ due four_early = [0; 3]%nat ∧
  timeout (timers four_early 2%nat) = 10 ∧
  timeout (timers four_early 1%nat) = 20 ∧
  match uv__run_timers (refreshing 25) 5 four_early with
  | Returned fired l' => fired = [0; 3; 2; 1]%nat ∧ time l' = 25
  | _ => False
  end.
Proof. vm_compute. by split_and!. Qed.

Lemma reinitialising_spares_others c h l :
  time (reinitialising c h l) = time l ∧
  timer_counter (reinitialising c h l) = timer_counter l ∧
  timer_heap (reinitialising c h l) = timer_heap l ∧
  ∀ k, k ≠ 3%nat → timers (reinitialising c h l) k = timers l k.
Proof.
  split_and!; try done. intros k Hk. unfold reinitialising. simpl.
  by rewrite fn_lookup_insert_ne.
Qed.

(** A callback that initialises a linked handle leaves it in the heap
    with no callback: the next round calls through the null pointer. *)
Lemma reinitialising_calls_null :
  loop_ok four_late ∧ time four_late = 35 ∧
  timer_heap four_late = [0; 3; 2; 1]%nat ∧
  ∀ fuel, uv__run_timers reinitialising (S (S fuel)) four_late = NullCall.
Proof.
  split; [apply four_late_ok|]. split_and!; [reflexivity..|].
  intros fuel. vm_compute. reflexivity.
Qed.


(** The root of [reinitialised] is due but inactive: [uv_timer_stop]
    leaves it in the heap, and there is no callback to call. *)
Lemma reinitialised_stays_linked :
  heap_min (timer_heap reinitialised) = Some 0%nat ∧
  timeout (timers reinitialised 0%nat) <= time reinitialised ∧
  0%nat ∈ timer_heap (snd (uv_timer_stop 0%nat reinitialised)) ∧
  ∀ cb_env fuel, uv__run_timers cb_env (S fuel) reinitialised = NullCall.
Proof.
  split_and!.
  - reflexivity.
  - vm_compute. congruence.
  - vm_compute. left.
  - intros cb_env fuel. vm_compute. reflexivity.
Qed.

(** *** The expiry loop, as the claims have it *)

(** The root is not always unlinked before the callback, and the cached
    loop time is not always the same through a call: a root that is
    linked but inactive stays in the heap, and a callback that refreshes
    the clock moves the cut-off for the rounds that follow. *)
Lemma expiry_protocol_limits :
  (heap_min (timer_heap reinitialised) = Some 0%nat ∧
   timeout (timers reinitialised 0%nat) <= time reinitialised ∧
   0%nat ∈ timer_heap (snd (uv_timer_stop 0%nat reinitialised)) ∧
   ∀ cb_env fuel, uv__run_timers cb_env (S fuel) reinitialised = NullCall) ∧
  (time four_early = 7 ∧ due four_early = [0; 3]%nat ∧
   timeout (timers four_early 2%nat) = 10 ∧
   timeout (timers four_early 1%nat) = 20 ∧
   match uv__run_timers (refreshing 25) 5 four_early with
   | Returned fired l' => fired = [0; 3; 2; 1]%nat ∧ time l' = 25
   | _ => False
   end).
Proof. split; [apply reinitialised_stays_linked|apply refreshing_fires_early]. Qed.


(** The expiry loop does not always return having fired each handle at
    most once, though no callback starts, stops or re-arms a timer: not
    with the clock at its last value, not when a callback refreshes the
    clock, and not when a callback initialises a linked handle. *)
Lemma uv__run_timers_limits :
  (passive idle ∧ loop_ok saturated ∧ time saturated = UINT64_MAX ∧
   ∀ fuel, uv__run_timers idle fuel saturated = OutOfFuel) ∧
  ((∀ now c h l,
      timer_counter (refreshing now c h l) = timer_counter l ∧
      timer_heap (refreshing now c h l) = timer_heap l ∧
      timers (refreshing now c h l) = timers l) ∧
   loop_ok drift ∧ time drift = 35 ∧ timer_heap drift = [0%nat] ∧
   timer_cb (timers drift 0%nat) = Some 1%nat ∧
   timeout (timers drift 0%nat) = 10 ∧ repeat (timers drift 0%nat) = 10 ∧
   closing (timers drift 0%nat) = false ∧
   match uv__run_timers (refreshing 45) 3 drift with
   | Returned fired l' =>
       fired = [0; 0]%nat ∧ time l' = 45 ∧ timeout (timers l' 0%nat) = 55
   | _ => False
   end) ∧
  ((∀ c h l,
      time (reinitialising c h l) = time l ∧
      timer_counter (reinitialising c h l) = timer_counter l ∧
      timer_heap (reinitialising c h l) = timer_heap l ∧
      ∀ k, k ≠ 3%nat → timers (reinitialising c h l) k = timers l k) ∧
   loop_ok four_late ∧ time four_late = 35 ∧
   timer_heap four_late = [0; 3; 2; 1]%nat ∧
   ∀ fuel, uv__run_timers reinitialising (S (S fuel)) four_late = NullCall).
Proof.
  refine (conj _ (conj _ _)).
  - apply saturated_clock_spins.
  - split; [intros now; apply refreshing_spares_timers|apply refreshing_fires_twice].
  - split; [apply reinitialising_spares_others|apply reinitialising_calls_null].
Qed.
End ScenarioFacts.

(** ** The claims at work on the scenarios *)

Import Scenario ScenarioFacts.

Lemma uv__run_timers_protocol_four :
  linked_ok four_late ∧
  (run_timers_body idle four_late = None ↔
     timer_heap four_late = [] ∨
     ∃ h, heap_min (timer_heap four_late) = Some h ∧
          time four_late < timeout (timers four_late h)) ∧
  (∀ fuel fired l',
     uv__run_timers idle fuel four_late = Returned fired l' →
     run_timers_body idle l' = None) ∧
  (∀ fuel fired l',
     uv__run_timers idle fuel four_late = Returned fired l' →
     time l' = time four_late).
Proof.
  pose proof four_late_ok as [Hl _].
  destruct (uv__run_timers_protocol idle four_late) as (H1&_&_&H4&_&H6).
  split_and!; [exact Hl|exact H1|exact H4|].
  apply H6. reflexivity.
Defined.

Lemma uv__next_timeout_four :
  uint64 (time four) ∧ (∀ h, uint64 (timeout (timers four h))) ∧
  uv__next_timeout four = 5.
Proof.
  pose proof four_ok as (_&_&Hnow&Hwf&_).
  assert (Hto : ∀ h, uint64 (timeout (timers four h))) by (intros h; apply Hwf).
  split_and!; [done..|].
  destruct (uv__next_timeout_spec four) as (_&_&Hroot&_).
  apply (Hroot 0%nat); [reflexivity|reflexivity|exact Hnow|apply Hto].
Defined.

Lemma extraction_order_four :
  linked_ok four ∧ loop_ordered four ∧ ids_ok four ∧
  drain_timers 4 four ≡ₚ timer_heap four ∧
  drain_timers 4 four = [0; 3; 2; 1]%nat.
Proof.
  pose proof four_ok as (Hl&Ho&_).
  split_and!; [done|done|apply four_ids| |reflexivity].
  apply (extraction_order four Hl Ho four_ids).
Defined.

Lemma linked_iff_active_kept_four :
  linked_ok four ∧
  (∀ h, linked_ok (snd (uv_timer_stop h four)) ∧
        (h ∉ timer_heap (snd (uv_timer_stop h four))) ∧
        active (timers (snd (uv_timer_stop h four)) h) = false).
Proof.
  pose proof four_ok as (Hl&_).
  split; [done|]. apply (linked_iff_active_kept four Hl).
Defined.

Lemma uv_timer_start_saturates_max :
  uint64 (time (at_time 7 loop0)) ∧ uint64 UINT64_MAX ∧
  closing (timers (at_time 7 loop0) 0%nat) = false ∧
  timeout (timers (snd (uv_timer_start 0%nat (Some 1%nat) UINT64_MAX 0
                          (at_time 7 loop0))) 0%nat) = UINT64_MAX.
Proof.
  assert (H1 : uint64 (time (at_time 7 loop0))) by (vm_compute; split; congruence).
  assert (H2 : uint64 UINT64_MAX) by (vm_compute; split; congruence).
  split_and!; [done..|].
  apply (uv_timer_start_saturates 0%nat 1%nat UINT64_MAX 0 (at_time 7 loop0) H1 H2 eq_refl);
    [reflexivity|vm_compute; reflexivity].
Defined.


Lemma uv__run_timers_bounded_four :
  passive idle ∧ loop_ok four_late ∧ time four_late < UINT64_MAX ∧
  ∃ fired l',
    uv__run_timers idle 5 four_late = Returned fired l' ∧
    fired ≡ₚ due four_late ∧ NoDup fired.
Proof.
  assert (Hmax : time four_late < UINT64_MAX) by (vm_compute; reflexivity).
  split_and!; [apply idle_quiet|apply four_late_ok|done|].
  destruct (uv__run_timers_bounded idle four_late (proj1 idle_quiet)
              four_late_ok Hmax) as [(fired&l'&Hrun&_&Hf&Hnd&_) _].
  exists fired, l'. split_and!; [|exact Hf|exact Hnd].
  assert (Hlen : length (timer_heap four_late) = 4%nat) by (vm_compute; reflexivity).
  rewrite Hlen in Hrun. exact Hrun.
Defined.

(** * Further properties of timer.c *)

(** ** Time left *)

(** X1: [uv_timer_get_due_in] always returns a 64-bit value; for a 64-bit
    loop time and deadline it is the time left, [max 0 (timeout - time)]:
    zero exactly when the deadline has been reached, and otherwise what
    added to the loop time gives the deadline. *)
Theorem uv_timer_get_due_in_spec h l :
  0 <= uv_timer_get_due_in h l <= UINT64_MAX ∧
  (uint64 (time l) → uint64 (timeout (timers l h)) →
     uv_timer_get_due_in h l = Z.max 0 (timeout (timers l h) - time l) ∧
     (uv_timer_get_due_in h l = 0 ↔ timeout (timers l h) <= time l) ∧
     time l + uv_timer_get_due_in h l = Z.max (time l) (timeout (timers l h))).
Proof.
  unfold uv_timer_get_due_in, wrap64, uint64, UINT64_MAX.
  destruct (Z.geb_spec (time l) (timeout (timers l h))) as [Hge|Hlt].
  - split; [lia|]. intros _ _. split_and!; lia.
  - pose proof (Z.mod_pos_bound (timeout (timers l h) - time l) (2 ^ 64)
                  ltac:(lia)).
    split; [lia|]. intros Hnow Hto. rewrite Z.mod_small by lia.
    split_and!; lia.
Qed.

(** X2: the poll budget is the time left of the root, cut at [INT_MAX];
    it is zero exactly when the root has no time left. *)
Theorem uv__next_timeout_due_in l h :
  heap_min (timer_heap l) = Some h →
  uv__next_timeout l = Z.min (uv_timer_get_due_in h l) INT_MAX ∧
  (uv__next_timeout l = 0 ↔ uv_timer_get_due_in h l = 0).
Proof.
  intros Hm. unfold uv__next_timeout, uv_timer_get_due_in. rewrite Hm.
  destruct (Z.leb_spec (timeout (timers l h)) (time l)),
           (Z.geb_spec (time l) (timeout (timers l h))); try lia.
  - unfold INT_MAX. split; [lia|done].
  - destruct (Z.gtb_spec (wrap64 (timeout (timers l h) - time l)) INT_MAX);
      unfold INT_MAX in *; split; lia.
Qed.

(** ** The comparator *)

(** X3: [timer_less_than] is a strict weak order on all handles: it is
    asymmetric, its complement is transitive, and two handles are tied
    exactly when they agree on both the deadline and the start id. *)
Theorem timer_less_than_weak_order a b c :
  (timer_less_than a b = true → timer_less_than b a = false) ∧
  (timer_less_than a b = false → timer_less_than b c = false →
     timer_less_than a c = false) ∧
  (timer_less_than a b = false ∧ timer_less_than b a = false ↔
     timeout a = timeout b ∧ start_id a = start_id b).
Proof.
  rewrite !timer_less_than_spec, !timer_less_than_false. lia.
Qed.

(** ** Initialisation *)

Lemma uv_timer_init_ok h l :
  loop_ok l → h ∉ timer_heap l → loop_ok (snd (uv_timer_init h l)).
Proof.
  intros (Hl&Ho&Hnow&Hwf&Hcb) Hh. split_and!.
  - by apply uv_timer_init_linked.
  - unfold loop_ordered. simpl. eapply heap_ok_agree; [|exact Ho].
    intros k Hk. rewrite fn_lookup_insert_ne; [done|]. by intros ->.
  - done.
  - intros k. simpl. destruct (decide (k = h)) as [->|].
    + rewrite fn_lookup_insert. split; simpl; unfold uint64, UINT64_MAX; lia.
    + rewrite fn_lookup_insert_ne by done. apply Hwf.
  - intros k Hk. simpl. rewrite fn_lookup_insert_ne; [by apply Hcb|].
    by intros ->.
Qed.

(** X4: [uv_timer_init] returns 0 and leaves the handle inactive, not
    closing, with no callback and zero deadline and repeat; the other
    handles, the heap, the clock and the counter are untouched.  On the
    handle it leaves, [uv_timer_again] is refused and [uv_timer_stop] does
    nothing.  Applied to a handle that is not linked it keeps a
    well-formed loop well-formed. *)
Theorem uv_timer_init_resets h l :
  let l' := snd (uv_timer_init h l) in
  fst (uv_timer_init h l) = 0 ∧
  timers l' h =
    {| timer_cb := None; timeout := 0; repeat := 0;
       start_id := start_id (timers l h); active := false; closing := false |} ∧
  (∀ k, k ≠ h → timers l' k = timers l k) ∧
  (timer_heap l' = timer_heap l ∧ time l' = time l ∧
   timer_counter l' = timer_counter l) ∧
  uv_timer_again h l' = (UV_EINVAL, l') ∧
  uv_timer_stop h l' = (0, l') ∧
  (loop_ok l → h ∉ timer_heap l → loop_ok l').
Proof.
  intros l'.
  assert (Hh : timers l' h =
    {| timer_cb := None; timeout := 0; repeat := 0;
       start_id := start_id (timers l h); active := false; closing := false |})
    by (unfold l'; simpl; by rewrite fn_lookup_insert).
  split_and!; try done.
  - intros k Hk. unfold l'. simpl. by rewrite fn_lookup_insert_ne.
  - apply uv_timer_again_never_started. by rewrite Hh.
  - apply uv_timer_stop_inactive. by rewrite Hh.
  - apply uv_timer_init_ok.
Qed.

(** ** Starting and restarting *)

Lemma uv_timer_stop_heap_filter h l :
  linked_ok l →
  timer_heap (snd (uv_timer_stop h l)) ≡ₚ filter (λ k, k ≠ h) (timer_heap l).
Proof.
  intros Hl. apply NoDup_Permutation.
  - by apply uv_timer_stop_NoDup.
  - apply list.NoDup_filter. by destruct Hl.
  - intros k. rewrite uv_timer_stop_elem_of, list_elem_of_filter by done. tauto.
Qed.



(** X6: starting a stopped timer and stopping it again is a round trip for
    the schedule: the same handles are linked, the handle is inactive, the
    other handles and the clock are untouched, linked still means active;
    and in an ordered heap the heap stays ordered and the poll budget is
    what it was. *)
Theorem uv_timer_start_stop_roundtrip h c d r l :
  closing (timers l h) = false → active (timers l h) = false → linked_ok l →
  let l2 := snd (uv_timer_stop h (snd (uv_timer_start h (Some c) d r l))) in
  timer_heap l2 ≡ₚ timer_heap l ∧
  active (timers l2 h) = false ∧
  (∀ k, k ≠ h → timers l2 k = timers l k) ∧
  time l2 = time l ∧ linked_ok l2 ∧
  (loop_ordered l → loop_ordered l2 ∧ uv__next_timeout l2 = uv__next_timeout l).
Proof.
  intros Hc Ha Hl l2.
  set (l1 := snd (uv_timer_start h (Some c) d r l)) in *.
  assert (Hl1 : linked_ok l1) by by apply uv_timer_start_linked.
  assert (Hl2 : linked_ok l2) by by apply uv_timer_stop_linked.
  assert (Hout : h ∉ timer_heap l) by (destruct Hl as [_ Hl]; rewrite Hl; congruence).
  assert (Hmem : ∀ k, k ∈ timer_heap l2 ↔ k ∈ timer_heap l).
  { intros k. unfold l2. rewrite uv_timer_stop_elem_of by done.
    unfold l1. rewrite uv_timer_start_elem_of by done.
    destruct (decide (k = h)) as [->|]; intuition congruence. }
  assert (Hperm : timer_heap l2 ≡ₚ timer_heap l).
  { apply NoDup_Permutation; [by destruct Hl2|by destruct Hl|done]. }
  assert (Hk : ∀ k, k ≠ h → timers l2 k = timers l k).
  { intros k Hk. unfold l2. rewrite uv_timer_stop_timers, decide_False by done.
    unfold l1. by rewrite uv_timer_start_timers, decide_False. }
  assert (Ht : time l2 = time l).
  { unfold l2. rewrite uv_timer_stop_time. by apply uv_timer_start_time. }
  split_and!; try done.
  - unfold l2. by rewrite uv_timer_stop_timers, decide_True.
  - intros Ho.
    assert (Ho2 : loop_ordered l2).
    { apply uv_timer_stop_ordered; [|done]. by apply uv_timer_start_ordered. }
    split; [done|]. unfold uv__next_timeout.
    destruct (heap_min (timer_heap l2)) as [r2|] eqn:Hm2,
             (heap_min (timer_heap l)) as [r0|] eqn:Hm0.
    + pose proof (heap_min_elem_of _ _ Hm2) as Hin2.
      pose proof (heap_min_elem_of _ _ Hm0) as Hin0.
      apply Hmem in Hin2 as Hin2'. apply Hmem in Hin0 as Hin0'.
      assert (r2 ≠ h) as Hr2 by (by intros ->).
      assert (r0 ≠ h) as Hr0 by (by intros ->).
      pose proof (loop_min_least l r0 r2 Ho Hm0 Hin2') as H1.
      pose proof (loop_min_least l2 r2 r0 Ho2 Hm2 Hin0') as H2.
      rewrite !Hk in H2 by done. rewrite Ht, (Hk r2) by done.
      apply timer_less_than_false in H1, H2.
      by replace (timeout (timers l r2)) with (timeout (timers l r0)) by lia.
    + apply heap_min_None in Hm0. rewrite Hm0 in Hperm.
      apply Permutation_nil_r in Hperm. apply heap_min_None in Hperm. congruence.
    + apply heap_min_None in Hm2. rewrite Hm2 in Hperm.
      symmetry in Hperm.
      apply Permutation_nil_r in Hperm. apply heap_min_None in Hperm. congruence.
    + done.
Qed.

Lemma clamped_mono now d1 d2 :
  uint64 now → uint64 d1 → uint64 d2 → d1 <= d2 → clamped now d1 <= clamped now d2.
Proof.
  intros Hn H1 H2 Hle. rewrite !clamped_timeout_deadline by done.
  unfold deadline. lia.
Qed.

(** X7: of two timers started one after the other on a loop whose counter
    has not wrapped, the first with a delay no longer than the second's,
    the first compares below the second: its deadline is not later, and
    its start id is smaller.  Timers with equal deadlines are ordered by
    the order in which they were started. *)
Theorem uv_timer_start_fifo h1 h2 c1 c2 d1 d2 r1 r2 l :
  h1 ≠ h2 → closing (timers l h1) = false → closing (timers l h2) = false →
  0 <= timer_counter l < UINT64_MAX →
  uint64 (time l) → uint64 d1 → uint64 d2 → d1 <= d2 →
  let l' := snd (uv_timer_start h2 (Some c2) d2 r2
                   (snd (uv_timer_start h1 (Some c1) d1 r1 l))) in
  timeout (timers l' h1) <= timeout (timers l' h2) ∧
  start_id (timers l' h1) < start_id (timers l' h2) ∧
  timer_less_than (timers l' h1) (timers l' h2) = true ∧
  timer_less_than (timers l' h2) (timers l' h1) = false.
Proof.
  intros Hne Hc1 Hc2 Hcnt Hnow Hd1 Hd2 Hle l'.
  set (l1 := snd (uv_timer_start h1 (Some c1) d1 r1 l)) in *.
  assert (Hc2' : closing (timers l1 h2) = false).
  { unfold l1. by rewrite uv_timer_start_timers, decide_False. }
  assert (H2 : timers l' h2 =
            armed c2 (clamped (time l) d2) r2 (timer_counter l + 1)).
  { unfold l'. rewrite uv_timer_start_timers, decide_True by done.
    unfold l1. rewrite uv_timer_start_time, uv_timer_start_counter by done.
    unfold wrap64, UINT64_MAX in *. by rewrite Z.mod_small by lia. }
  assert (H1 : timers l' h1 =
            armed c1 (clamped (time l) d1) r1 (timer_counter l)).
  { unfold l'. rewrite uv_timer_start_timers, decide_False by done.
    unfold l1. by rewrite uv_timer_start_timers, decide_True. }
  pose proof (clamped_mono (time l) d1 d2 Hnow Hd1 Hd2 Hle) as Hmono.
  rewrite timer_less_than_spec, timer_less_than_false, H1, H2. simpl.
  split_and!; lia.
Qed.

(** ** The poll budget as timers come and go *)

Lemma uv__next_timeout_root l h :
  heap_min (timer_heap l) = Some h →
  uv__next_timeout l = poll_budget (time l) (timeout (timers l h)).
Proof. intros Hm. unfold uv__next_timeout. by rewrite Hm. Qed.

Lemma poll_budget_closed now t :
  uint64 now → uint64 t →
  poll_budget now t = Z.min (Z.max 0 (t - now)) INT_MAX.
Proof.
  unfold poll_budget, uint64, UINT64_MAX, wrap64, INT_MAX. intros Hn Ht.
  destruct (Z.leb_spec t now); [lia|].
  rewrite Z.mod_small by lia.
  destruct (Z.gtb_spec (t - now) (2 ^ 31 - 1)); lia.
Qed.

(** X8: after a successful [uv_timer_start] with delay [d] the poll budget
    is between 0 and [min d INT_MAX]: the loop will not sleep past the new
    timer (nor past any timer that was there before). *)
Theorem uv__next_timeout_after_start h c d r l :
  closing (timers l h) = false → uint64 d → uint64 r → loop_ok l →
  let l' := snd (uv_timer_start h (Some c) d r l) in
  0 <= uv__next_timeout l' <= Z.min d INT_MAX ∧
  (timer_heap l ≠ [] → active (timers l h) = false →
     uv__next_timeout l' <= uv__next_timeout l).
Proof.
  intros Hc Hd Hr Hok l'.
  assert (Hok' : loop_ok l') by by apply uv_timer_start_keeps_ok.
  destruct Hok as (Hl&Ho&Hnow&Hwf&Hcb).
  destruct Hok' as (Hl'&Ho'&Hnow'&Hwf'&Hcb').
  assert (Hin : h ∈ timer_heap l')
    by (unfold l'; rewrite uv_timer_start_elem_of by done; by left).
  destruct (heap_min (timer_heap l')) as [r'|] eqn:Hm'; cycle 1.
  { apply heap_min_None in Hm'. rewrite Hm' in Hin. by apply elem_of_nil in Hin. }
  assert (Ht : time l' = time l) by by apply uv_timer_start_time.
  rewrite (uv__next_timeout_root l' r' Hm').
  rewrite poll_budget_closed by (done || apply Hwf').
  assert (Hroot : ∀ k, k ∈ timer_heap l' →
            timeout (timers l' r') <= timeout (timers l' k)).
  { intros k Hk. pose proof (loop_min_least l' r' k Ho' Hm' Hk) as Hle.
    apply timer_less_than_false in Hle. lia. }
  split.
  - specialize (Hroot h Hin).
    assert (timeout (timers l' h) = deadline (time l) d) as Hto.
    { unfold l'. rewrite uv_timer_start_timers, decide_True by done. simpl.
      by apply clamped_timeout_deadline. }
    unfold deadline, uint64, INT_MAX in *. lia.
  - intros Hne Ha.
    destruct (heap_min (timer_heap l)) as [r0|] eqn:Hm0;
      [|by apply heap_min_None in Hm0].
    rewrite (uv__next_timeout_root l r0 Hm0).
    rewrite poll_budget_closed by (done || apply Hwf).
    pose proof (heap_min_elem_of _ _ Hm0) as Hin0.
    assert (r0 ≠ h) as Hr0.
    { intros ->. destruct Hl as [_ Hl]. apply Hl in Hin0. congruence. }
    assert (r0 ∈ timer_heap l') as Hin0'
      by (unfold l'; rewrite uv_timer_start_elem_of by done; by right).
    specialize (Hroot r0 Hin0').
    assert (timers l' r0 = timers l r0) as Heq
      by (unfold l'; by rewrite uv_timer_start_timers, decide_False).
    rewrite Heq in Hroot. rewrite Ht. lia.
Qed.

(** X9: stopping a timer never shortens the poll budget: afterwards
    [uv__next_timeout] is -1 (no timer is left) or at least what it was. *)
Theorem uv__next_timeout_after_stop h l :
  loop_ok l →
  let l' := snd (uv_timer_stop h l) in
  (uv__next_timeout l' = -1 ↔ ∀ k, k ∈ timer_heap l → k = h) ∧
  (uv__next_timeout l' ≠ -1 → uv__next_timeout l <= uv__next_timeout l').
Proof.
  intros Hok l'.
  assert (Hok' : loop_ok l') by by apply uv_timer_stop_keeps_ok.
  destruct Hok as (Hl&Ho&Hnow&Hwf&Hcb).
  destruct Hok' as (Hl'&Ho'&Hnow'&Hwf'&Hcb').
  assert (Hmem : ∀ k, k ∈ timer_heap l' ↔ k ∈ timer_heap l ∧ k ≠ h)
    by (intros k; by apply uv_timer_stop_elem_of).
  destruct (heap_min (timer_heap l')) as [r'|] eqn:Hm'; cycle 1.
  { unfold uv__next_timeout at 1 2. rewrite Hm'. split; [|done].
    split; [intros _|done]. apply heap_min_None in Hm'.
    intros k Hk. destruct (decide (k = h)) as [|Hne]; [done|].
    assert (k ∈ timer_heap l') as Hk' by (by apply Hmem).
    rewrite Hm' in Hk'. by apply elem_of_nil in Hk'. }
  pose proof (heap_min_elem_of _ _ Hm') as Hin'.
  apply Hmem in Hin' as [Hin Hne].
  rewrite (uv__next_timeout_root l' r' Hm').
  rewrite poll_budget_closed by (done || apply Hwf').
  split.
  - split.
    + unfold INT_MAX. lia.
    + intros Hall. by specialize (Hall r' Hin).
  - intros _.
    destruct (heap_min (timer_heap l)) as [r0|] eqn:Hm0; cycle 1.
    { apply heap_min_None in Hm0. rewrite Hm0 in Hin. by apply elem_of_nil in Hin. }
    rewrite (uv__next_timeout_root l r0 Hm0).
    rewrite poll_budget_closed by (done || apply Hwf).
    pose proof (loop_min_least l r0 r' Ho Hm0 Hin) as Hle.
    apply timer_less_than_false in Hle.
    unfold l'. rewrite uv_timer_stop_time, uv_timer_stop_timers, decide_False by done.
    lia.
Qed.

(** ** More on the expiry loop *)

Section expiry_order.
Variable cb_env : cb_id → handle → uv_loop_t → uv_loop_t.
Hypothesis Hpassive : passive cb_env.

Lemma uv__run_timers_agree f1 f2 l fired1 l1 fired2 l2 :
  uv__run_timers cb_env f1 l = Returned fired1 l1 →
  uv__run_timers cb_env f2 l = Returned fired2 l2 →
  fired1 = fired2 ∧ l1 = l2.
Proof.
  intros H1 H2.
  apply (uv__run_timers_more cb_env f1 (f1 `max` f2)) in H1; [|lia].
  apply (uv__run_timers_more cb_env f2 (f1 `max` f2)) in H2; [|lia].
  rewrite H1 in H2. by injection H2.
Qed.

(** Whatever budget lets the loop return, it returns the same. *)
Lemma run_timers_returned fuel l fired l' :
  loop_ok l → time l < UINT64_MAX →
  uv__run_timers cb_env fuel l = Returned fired l' →
  fired ≡ₚ due l ∧ loop_ok l' ∧ time l' = time l ∧ due l' = [] ∧
  (∀ k, k ∉ due l → same_schedule (timers l k) (timers l' k)).
Proof.
  intros Hok Hmax Hrun.
  destruct (run_timers_fires cb_env Hpassive (length (due l)) l Hok Hmax)
    as (fired0&l0&Hrun0&H1&H2&H3&H4&H5&_); [done|].
  destruct (uv__run_timers_agree _ _ _ _ _ _ _ Hrun Hrun0) as [-> ->].
  done.
Qed.

Lemma run_timers_total l :
  loop_ok l → time l < UINT64_MAX →
  ∃ fired l',
    uv__run_timers cb_env (S (length (timer_heap l))) l = Returned fired l'.
Proof.
  intros Hok Hmax.
  destruct (run_timers_fires cb_env Hpassive (length (due l)) l Hok Hmax)
    as (fired&l'&Hrun&_); [done|].
  exists fired, l'. eapply uv__run_timers_more; [|exact Hrun].
  pose proof (length_filter (λ k, timeout (timers l k) <= time l) (timer_heap l)).
  unfold due. lia.
Qed.

Lemma run_timers_sorted fuel l fired l' :
  loop_ok l → time l < UINT64_MAX →
  uv__run_timers cb_env fuel l = Returned fired l' →
  ∀ i j a b, (i < j)%nat → fired !! i = Some a → fired !! j = Some b →
    timer_less_than (timers l b) (timers l a) = false.
Proof.
  revert l fired. induction fuel as [|fuel IH]; intros l fired Hok Hmax; [done|].
  simpl. destruct (run_timers_body cb_env l) as [[[]|[h0 l3]]|] eqn:Hbody; try done.
  2: { intros [= <- _] i j a b _ Hi. done. }
  destruct (uv__run_timers cb_env fuel l3) as [fired' l''| |] eqn:Hrun; try done.
  intros [= <- <-].
  assert (∃ h, heap_min (timer_heap l) = Some h ∧
               timeout (timers l h) <= time l) as (h&Hm&Hdue).
  { unfold run_timers_body in Hbody.
    destruct (heap_min (timer_heap l)) as [h|]; [|done].
    destruct (Z.gtb_spec (timeout (timers l h)) (time l)); [done|].
    exists h. split; [done|lia]. }
  pose proof (heap_min_elem_of _ _ Hm) as Hin.
  pose proof (due_rearmed h l Hok Hmax Hin Hdue) as Hperm.
  destruct Hok as (Hl&Ho&Hnow&Hwf&Hcb).
  destruct (Hcb h Hin) as [c Hc].
  assert (Hok : loop_ok l) by done.
  rewrite (run_timers_body_due cb_env l h Hm Hdue), (rearmed_cb h c l Hc) in Hbody.
  injection Hbody as <- <-.
  set (l3 := cb_env c h (rearmed h l)) in *.
  destruct (Hpassive c h (rearmed h l)) as (Ht3&_&Hh3&Hs3).
  fold l3 in Ht3, Hh3, Hs3.
  assert (Hok3 : loop_ok l3) by by apply passive_ok, rearmed_ok.
  assert (Hmax3 : time l3 < UINT64_MAX) by by rewrite Ht3, rearmed_time.
  destruct (run_timers_returned fuel l3 fired' l'' Hok3 Hmax3 Hrun) as (Hf&_).
  assert (Hdue3 : due l3 = due (rearmed h l)) by by apply passive_due.
  rewrite Hdue3 in Hf.
  assert (Hnd : NoDup (due l)) by (unfold due; apply list.NoDup_filter; by destruct Hl).
  rewrite Hperm in Hnd. apply NoDup_cons_1_1 in Hnd as Hh.
  assert (Hkeys : ∀ k, k ∈ fired' →
            k ∈ timer_heap l ∧
            timeout (timers l3 k) = timeout (timers l k) ∧
            start_id (timers l3 k) = start_id (timers l k)).
  { intros k Hk. rewrite Hf in Hk.
    assert (k ≠ h) as Hkh by (by intros ->).
    assert (k ∈ due l) as Hkd by (rewrite Hperm; by right).
    apply due_elem_of in Hkd as [_ Hkd]. split; [done|].
    destruct (Hs3 k) as (_&->&->&_). by rewrite rearmed_timers_ne. }
  intros i j a b Hij Hi Hj. destruct j as [|j]; [lia|]. simpl in Hj.
  apply list_elem_of_lookup_2 in Hj as Hb. destruct (Hkeys b Hb) as (Hbin&Hb1&Hb2).
  destruct i as [|i]; simpl in Hi.
  - simplify_eq. by apply (loop_min_least l a b Ho Hm).
  - apply list_elem_of_lookup_2 in Hi as Ha. destruct (Hkeys a Ha) as (_&Ha1&Ha2).
    specialize (IH l3 fired' Hok3 Hmax3 Hrun i j a b ltac:(lia) Hi Hj).
    rewrite timer_less_than_false in *. lia.
Qed.
End expiry_order.

Lemma run_timers_one_shot cb_env fuel l fired l' :
  quiet cb_env → loop_ok l → time l < UINT64_MAX →
  uv__run_timers cb_env fuel l = Returned fired l' →
  ∀ k, k ∈ due l → repeat (timers l k) = 0 →
    active (timers l' k) = false ∧ timeout (timers l' k) = timeout (timers l k).
Proof.
  intros [Hpassive Hq]. revert l fired.
  induction fuel as [|fuel IH]; intros l fired Hok Hmax; [done|].
  simpl. destruct (run_timers_body cb_env l) as [[[]|[h0 l3]]|] eqn:Hbody; try done.
  2: { intros _ k Hk. apply run_timers_body_idle in Hbody; [|apply Hok].
       rewrite Hbody in Hk. by apply elem_of_nil in Hk. }
  destruct (uv__run_timers cb_env fuel l3) as [fired' l''| |] eqn:Hrun; try done.
  intros [= _ <-].
  assert (∃ h, heap_min (timer_heap l) = Some h ∧
               timeout (timers l h) <= time l) as (h&Hm&Hdue).
  { unfold run_timers_body in Hbody.
    destruct (heap_min (timer_heap l)) as [h|]; [|done].
    destruct (Z.gtb_spec (timeout (timers l h)) (time l)); [done|].
    exists h. split; [done|lia]. }
  pose proof (heap_min_elem_of _ _ Hm) as Hin.
  pose proof (due_rearmed h l Hok Hmax Hin Hdue) as Hperm.
  destruct Hok as (Hl&Ho&Hnow&Hwf&Hcb).
  destruct (Hcb h Hin) as [c Hc].
  assert (Hok : loop_ok l) by done.
  rewrite (run_timers_body_due cb_env l h Hm Hdue), (rearmed_cb h c l Hc) in Hbody.
  injection Hbody as <- <-.
  set (l3 := cb_env c h (rearmed h l)) in *.
  destruct (Hpassive c h (rearmed h l)) as (Ht3&_&Hh3&Hs3).
  fold l3 in Ht3, Hh3, Hs3.
  assert (Hok3 : loop_ok l3) by by apply passive_ok, rearmed_ok.
  assert (Hmax3 : time l3 < UINT64_MAX) by by rewrite Ht3, rearmed_time.
  destruct (run_timers_returned cb_env Hpassive fuel l3 fired' l'' Hok3 Hmax3 Hrun)
    as (_&_&_&_&Hsame).
  assert (Hdue3 : due l3 = due (rearmed h l)) by by apply passive_due.
  assert (Hnd : NoDup (due l)) by (unfold due; apply list.NoDup_filter; by destruct Hl).
  rewrite Hperm in Hnd. apply NoDup_cons_1_1 in Hnd as Hh.
  intros k Hk Hr. rewrite Hperm in Hk. apply elem_of_cons in Hk as [->|Hk].
  - rewrite <-Hdue3 in Hh.
    destruct (Hsame h Hh) as (_&->&_&->&_).
    destruct (Hs3 h) as (_&->&_&->&_).
    rewrite (rearmed_one_shot h c l Hc) by (by left).
    by rewrite uv_timer_stop_timers, decide_True.
  - assert (k ≠ h) as Hkh by (by intros ->).
    rewrite <-Hdue3 in Hk.
    destruct (IH l3 fired' Hok3 Hmax3 Hrun k Hk) as [Ha Hto].
    { unfold l3. by rewrite Hq, rearmed_timers_ne. }
    split; [done|]. rewrite Hto.
    destruct (Hs3 k) as (_&->&_). by rewrite rearmed_timers_ne.
Qed.

(** X10: on a well-formed loop with the loop time below 2^64 - 1, and with
    callbacks that leave the clock and the timers alone, [uv__run_timers]
    calls the callbacks in the order of the comparator: deadlines never
    decrease along the calls, and where start ids are distinct and below
    the counter each handle compares strictly below the ones fired after
    it. *)
Theorem uv__run_timers_in_order cb_env l :
  passive cb_env → loop_ok l → time l < UINT64_MAX →
  ∃ fired l',
    uv__run_timers cb_env (S (length (timer_heap l))) l = Returned fired l' ∧
    ∀ i j a b, (i < j)%nat → fired !! i = Some a → fired !! j = Some b →
      timeout (timers l a) <= timeout (timers l b) ∧
      timer_less_than (timers l b) (timers l a) = false ∧
      (ids_ok l → timer_less_than (timers l a) (timers l b) = true).
Proof.
  intros Hp Hok Hmax.
  destruct (run_timers_total cb_env Hp l Hok Hmax) as (fired&l'&Hrun).
  exists fired, l'. split; [done|]. intros i j a b Hij Hi Hj.
  pose proof (run_timers_sorted cb_env Hp _ l fired l' Hok Hmax Hrun i j a b Hij Hi Hj)
    as Hle.
  destruct (run_timers_returned cb_env Hp _ l fired l' Hok Hmax Hrun) as (Hf&_).
  pose proof Hle as Hle'. apply timer_less_than_false in Hle'.
  split_and!; [lia|done|].
  intros [_ Hinj]. apply timer_less_than_spec.
  assert (a ≠ b) as Hne.
  { intros ->. assert (NoDup fired) as Hnd.
    { rewrite Hf. unfold due. apply list.NoDup_filter. by destruct Hok as [[? _] _]. }
    pose proof (NoDup_lookup _ _ _ _ Hnd Hi Hj). lia. }
  assert (a ∈ due l) as Ha by (rewrite <-Hf; by eapply list_elem_of_lookup_2).
  assert (b ∈ due l) as Hb by (rewrite <-Hf; by eapply list_elem_of_lookup_2).
  apply due_elem_of in Ha as [_ Ha]. apply due_elem_of in Hb as [_ Hb].
  specialize (Hinj a b Ha Hb).
  destruct (decide (start_id (timers l a) = start_id (timers l b))); [tauto|lia].
Qed.

(** X11: on a well-formed loop with the loop time below 2^64 - 1, and with
    callbacks that leave the clock and the timers alone, no linked timer
    has run out of time when [uv__run_timers] returns: every linked handle
    has a positive [uv_timer_get_due_in], and [uv__next_timeout] is -1 or
    positive, so the loop may block. *)
Theorem uv__run_timers_then_blocks cb_env l :
  passive cb_env → loop_ok l → time l < UINT64_MAX →
  ∃ fired l',
    uv__run_timers cb_env (S (length (timer_heap l))) l = Returned fired l' ∧
    (∀ k, k ∈ timer_heap l' → 0 < uv_timer_get_due_in k l') ∧
    (uv__next_timeout l' = -1 ∨ 0 < uv__next_timeout l').
Proof.
  intros Hp Hok Hmax.
  destruct (run_timers_total cb_env Hp l Hok Hmax) as (fired&l'&Hrun).
  destruct (run_timers_returned cb_env Hp _ l fired l' Hok Hmax Hrun)
    as (_&Hok'&Ht&Hdue&_).
  exists fired, l'. split; [done|].
  destruct Hok' as (_&_&Hnow&Hwf&_).
  assert (Hlate : ∀ k, k ∈ timer_heap l' → time l' < timeout (timers l' k)).
  { intros k Hk.
    destruct (Z_lt_le_dec (time l') (timeout (timers l' k))) as [|Hle]; [done|].
    exfalso. by eapply (filter_nil_not_elem_of _ _ k Hdue Hle). }
  split.
  - intros k Hk. specialize (Hlate k Hk). destruct (Hwf k) as [Hto _].
    unfold uv_timer_get_due_in, wrap64, uint64, UINT64_MAX in *.
    destruct (Z.geb_spec (time l') (timeout (timers l' k))); [lia|].
    rewrite Z.mod_small by lia. lia.
  - destruct (heap_min (timer_heap l')) as [r|] eqn:Hm.
    + right. rewrite (uv__next_timeout_root l' r Hm).
      rewrite poll_budget_closed by (done || apply Hwf).
      specialize (Hlate r (heap_min_elem_of _ _ Hm)). unfold INT_MAX. lia.
    + left. unfold uv__next_timeout. by rewrite Hm.
Qed.

(** X12: a timer that has been stopped (or closed) does not fire: on a
    well-formed loop with the loop time below 2^64 - 1, and with callbacks
    that leave the clock and the timers alone, [uv__run_timers] run on the
    loop [uv_timer_stop] leaves fires exactly the other handles that were
    due. *)
Theorem stopped_timer_does_not_fire cb_env h l :
  passive cb_env → loop_ok l → time l < UINT64_MAX →
  uv__timer_close h l = snd (uv_timer_stop h l) ∧
  ∃ fired l',
    uv__run_timers cb_env (S (length (timer_heap l))) (snd (uv_timer_stop h l))
      = Returned fired l' ∧
    (h ∉ fired) ∧ (∀ k, k ∈ fired ↔ k ∈ due l ∧ k ≠ h).
Proof.
  intros Hp Hok Hmax. split; [done|].
  assert (Hok1 : loop_ok (snd (uv_timer_stop h l))) by by apply uv_timer_stop_keeps_ok.
  assert (Hmax1 : time (snd (uv_timer_stop h l)) < UINT64_MAX)
    by by rewrite uv_timer_stop_time.
  destruct (run_timers_total cb_env Hp _ Hok1 Hmax1) as (fired&l'&Hrun).
  destruct (run_timers_returned cb_env Hp _ _ fired l' Hok1 Hmax1 Hrun) as (Hf&_).
  assert (Hmem : ∀ k, k ∈ fired ↔ k ∈ due l ∧ k ≠ h).
  { intros k. rewrite Hf, !due_elem_of, uv_timer_stop_elem_of by apply Hok.
    rewrite uv_timer_stop_time, uv_timer_stop_timers.
    case_decide; subst; simpl; tauto. }
  exists fired, l'. split_and!; [|rewrite Hmem; tauto|done].
  eapply uv__run_timers_more; [|exact Hrun].
  destruct Hok as [Hl _].
  rewrite (uv_timer_stop_heap_filter h l Hl).
  pose proof (length_filter (λ k, k ≠ h) (timer_heap l)). lia.
Qed.

(** X13: on a well-formed loop with the loop time below 2^64 - 1, and with
    callbacks that leave the clock and the timers alone, [uv__run_timers]
    leaves the timers that are not due as they were scheduled: same
    callback, deadline and start id, still linked if they were linked. *)
Theorem uv__run_timers_spares_later_timers cb_env l :
  passive cb_env → loop_ok l → time l < UINT64_MAX →
  ∃ fired l',
    uv__run_timers cb_env (S (length (timer_heap l))) l = Returned fired l' ∧
    ∀ k, k ∉ due l →
      (k ∉ fired) ∧
      timer_cb (timers l' k) = timer_cb (timers l k) ∧
      timeout (timers l' k) = timeout (timers l k) ∧
      start_id (timers l' k) = start_id (timers l k) ∧
      (k ∈ timer_heap l' ↔ k ∈ timer_heap l).
Proof.
  intros Hp Hok Hmax.
  destruct (run_timers_total cb_env Hp l Hok Hmax) as (fired&l'&Hrun).
  destruct (run_timers_returned cb_env Hp _ l fired l' Hok Hmax Hrun)
    as (Hf&Hok'&_&_&Hsame).
  exists fired, l'. split; [done|]. intros k Hk.
  destruct (Hsame k Hk) as (Hcb&Hto&Hid&Hact&_).
  split_and!; try done.
  - by rewrite Hf.
  - destruct Hok as [[_ Hl] _]. destruct Hok' as [[_ Hl'] _].
    by rewrite Hl, Hl', Hact.
Qed.

(** X14: on a well-formed loop with the loop time below 2^64 - 1, and with
    callbacks that leave the clock and the timers alone, repeat values
    included, a due one-shot timer (repeat 0) is fired and ends stopped:
    inactive, out of the heap, its deadline as it was. *)
Theorem uv__run_timers_retires_one_shots cb_env l :
  quiet cb_env → loop_ok l → time l < UINT64_MAX →
  ∃ fired l',
    uv__run_timers cb_env (S (length (timer_heap l))) l = Returned fired l' ∧
    ∀ k, k ∈ due l → repeat (timers l k) = 0 →
      k ∈ fired ∧ active (timers l' k) = false ∧ (k ∉ timer_heap l') ∧
      timeout (timers l' k) = timeout (timers l k).
Proof.
  intros Hq Hok Hmax. pose proof (proj1 Hq) as Hp.
  destruct (run_timers_total cb_env Hp l Hok Hmax) as (fired&l'&Hrun).
  destruct (run_timers_returned cb_env Hp _ l fired l' Hok Hmax Hrun)
    as (Hf&Hok'&_).
  exists fired, l'. split; [done|]. intros k Hk Hr.
  destruct (run_timers_one_shot cb_env _ l fired l' Hq Hok Hmax Hrun k Hk Hr)
    as [Ha Hto].
  split_and!; try done.
  - by rewrite Hf.
  - destruct Hok' as [[_ Hl'] _]. rewrite Hl'. congruence.
Qed.

(** ** Well-formed loops stay well-formed *)

Lemma uv_timer_set_repeat_ok h v l :
  uint64 v → loop_ok l → loop_ok (uv_timer_set_repeat h v l).
Proof.
  intros Hv (Hl&Ho&Hnow&Hwf&Hcb).
  assert (Hk : ∀ k, timers (uv_timer_set_repeat h v l) k =
                 if decide (k = h) then set_repeat v (timers l h) else timers l k).
  { intros k. simpl. case_decide; subst;
      [by rewrite fn_lookup_insert|by rewrite fn_lookup_insert_ne]. }
  split_and!.
  - destruct Hl as [Hnd Hl]. split; [done|]. intros k. rewrite Hk.
    change (timer_heap (uv_timer_set_repeat h v l)) with (timer_heap l).
    rewrite Hl. by case_decide; subst.
  - unfold loop_ordered. eapply heap_ok_agree; [|exact Ho].
    intros k _. rewrite Hk. by case_decide; subst.
  - done.
  - intros k. rewrite Hk. case_decide; subst; [|apply Hwf].
    split; [apply Hwf|done].
  - intros k Hk'. rewrite Hk. case_decide; subst; by apply Hcb.
Qed.

(** X15: every operation keeps a well-formed loop well-formed: the heap
    stays ordered by the comparator, a handle is linked (once) exactly
    when it is active, every linked handle has a callback, and the loop
    time, deadlines and repeat values are 64-bit values.  This holds for
    [uv_timer_start] and [uv_timer_set_repeat] with 64-bit arguments,
    [uv_timer_stop], [uv_timer_again], [uv__timer_close], and
    [uv_timer_init] on a handle that is not linked. *)
Theorem loop_ok_kept l :
  loop_ok l →
  (∀ h cb d r, uint64 d → uint64 r → loop_ok (snd (uv_timer_start h cb d r l))) ∧
  (∀ h, loop_ok (snd (uv_timer_stop h l))) ∧
  (∀ h, loop_ok (snd (uv_timer_again h l))) ∧
  (∀ h, loop_ok (uv__timer_close h l)) ∧
  (∀ h v, uint64 v → loop_ok (uv_timer_set_repeat h v l)) ∧
  (∀ h, h ∉ timer_heap l → loop_ok (snd (uv_timer_init h l))).
Proof.
  intros Hok. split_and!.
  - intros h cb d r Hd Hr. by apply uv_timer_start_keeps_ok.
  - intros h. by apply uv_timer_stop_keeps_ok.
  - intros h. by apply uv_timer_again_keeps_ok.
  - intros h. by apply uv_timer_stop_keeps_ok.
  - intros h v Hv. by apply uv_timer_set_repeat_ok.
  - intros h Hh. by apply uv_timer_init_ok.
Qed.

(** X16: whatever the callbacks do, as long as each of them hands back a
    well-formed loop (as they do when they use the operations above, on
    any handle, the firing one included), [uv__run_timers] never calls
    through a null [timer_cb], and the loop it returns is well-formed. *)
Theorem uv__run_timers_reentrant cb_env l fuel :
  (∀ c h l0, loop_ok l0 → loop_ok (cb_env c h l0)) → loop_ok l →
  uv__run_timers cb_env fuel l ≠ NullCall ∧
  ∀ fired l', uv__run_timers cb_env fuel l = Returned fired l' → loop_ok l'.
Proof.
  intros Hcb. revert l. induction fuel as [|fuel IH]; intros l Hok; [done|].
  simpl. unfold run_timers_body.
  destruct (heap_min (timer_heap l)) as [h|] eqn:Hm;
    [|split; [done|by intros fired l' [= _ <-]]].
  destruct (timeout (timers l h) >? time l);
    [split; [done|by intros fired l' [= _ <-]]|].
  pose proof (heap_min_elem_of _ _ Hm) as Hin.
  destruct Hok as (Hl&Ho&Hnow&Hwf&Hc).
  destruct (Hc h Hin) as [c Hc'].
  assert (Hok : loop_ok l) by done.
  fold (rearmed h l). rewrite (rearmed_cb h c l Hc').
  destruct (IH (cb_env c h (rearmed h l))) as [Hnull Hret].
  { by apply Hcb, rearmed_ok. }
  destruct (uv__run_timers cb_env fuel (cb_env c h (rearmed h l)))
    as [fired0 l0| |]; [|done..].
  split; [done|]. intros fired l' [= _ <-]. by eapply Hret.
Qed.

(** ** The further properties at work on the scenarios *)

(** A callback that restarts its own handle: all four fire once, and all
    four are linked again for 35 + 7. *)
Example four_late_restarting :
  match uv__run_timers restarting 5 four_late with
  | Returned fired l' =>
      fired = [0; 3; 2; 1]%nat ∧ timer_heap l' = [0; 3; 2; 1]%nat ∧
      timeout (timers l' 0%nat) = 42 ∧ timeout (timers l' 2%nat) = 42 ∧
      uv__next_timeout l' = 7
  | _ => False
  end.
Proof. vm_compute. by split_and!. Qed.

Lemma restarting_ok c h l : loop_ok l → loop_ok (restarting c h l).
Proof. apply uv_timer_start_keeps_ok; by apply uint64_small. Qed.

Lemma uv_timer_get_due_in_spec_ten :
  uint64 (time (at_time 40 (started 0%nat 50 0 loop0))) ∧
  uint64 (timeout (timers (at_time 40 (started 0%nat 50 0 loop0)) 0%nat)) ∧
  uv_timer_get_due_in 0%nat (at_time 40 (started 0%nat 50 0 loop0)) =
    Z.max 0 (timeout (timers (at_time 40 (started 0%nat 50 0 loop0)) 0%nat)
             - time (at_time 40 (started 0%nat 50 0 loop0))).
Proof.
  assert (H1 : uint64 (time (at_time 40 (started 0%nat 50 0 loop0))))
    by (vm_compute; split; congruence).
  assert (H2 : uint64 (timeout (timers (at_time 40 (started 0%nat 50 0 loop0)) 0%nat)))
    by (vm_compute; split; congruence).
  split_and!; [done..|].
  apply (uv_timer_get_due_in_spec 0%nat (at_time 40 (started 0%nat 50 0 loop0)));
    done.
Defined.

Lemma uv__next_timeout_due_in_four :
  heap_min (timer_heap four) = Some 0%nat ∧
  uv__next_timeout four = Z.min (uv_timer_get_due_in 0%nat four) INT_MAX.
Proof.
  split; [reflexivity|].
  apply (uv__next_timeout_due_in four 0%nat). reflexivity.
Defined.

Lemma uv_timer_init_resets_one :
  loop_ok one ∧ (1%nat ∉ timer_heap one) ∧
  loop_ok (snd (uv_timer_init 1%nat one)).
Proof.
  assert (H : 1%nat ∉ timer_heap one).
  { change (timer_heap one) with [0%nat]. by intros [?|?%elem_of_nil]%elem_of_cons. }
  split_and!; [apply one_ok|done|].
  apply (uv_timer_init_resets 1%nat one); [apply one_ok|done].
Defined.


Lemma uv_timer_start_stop_roundtrip_four :
  closing (timers four 4%nat) = false ∧ active (timers four 4%nat) = false ∧
  linked_ok four ∧
  timer_heap (snd (uv_timer_stop 4%nat
                     (snd (uv_timer_start 4%nat (Some 1%nat) 3 0 four))))
    ≡ₚ timer_heap four.
Proof.
  pose proof four_ok as [Hl _].
  split_and!; [reflexivity|reflexivity|done|].
  apply (uv_timer_start_stop_roundtrip 4%nat 1%nat 3 0 four eq_refl eq_refl Hl).
Defined.

Lemma uv_timer_start_fifo_loop0 :
  0%nat ≠ 1%nat ∧ closing (timers loop0 0%nat) = false ∧
  closing (timers loop0 1%nat) = false ∧
  0 <= timer_counter loop0 < UINT64_MAX ∧
  uint64 (time loop0) ∧ uint64 5 ∧ 5 <= 5 ∧
  timer_less_than
    (timers (snd (uv_timer_start 1%nat (Some 1%nat) 5 0
                    (snd (uv_timer_start 0%nat (Some 1%nat) 5 0 loop0)))) 0%nat)
    (timers (snd (uv_timer_start 1%nat (Some 1%nat) 5 0
                    (snd (uv_timer_start 0%nat (Some 1%nat) 5 0 loop0)))) 1%nat)
    = true.
Proof.
  assert (H1 : 0%nat ≠ 1%nat) by discriminate.
  assert (H2 : 0 <= timer_counter loop0 < UINT64_MAX) by (vm_compute; split; congruence).
  assert (H3 : uint64 (time loop0)) by (vm_compute; split; congruence).
  assert (H4 : uint64 5) by (vm_compute; split; congruence).
  assert (H5 : 5 <= 5) by lia.
  refine (conj H1 (conj eq_refl (conj eq_refl (conj H2
            (conj H3 (conj H4 (conj H5 _))))))).
  apply (uv_timer_start_fifo 0%nat 1%nat 1%nat 1%nat 5 5 0 0 loop0
           H1 eq_refl eq_refl H2 H3 H4 H4 H5).
Defined.

Lemma uv__next_timeout_after_start_four :
  closing (timers four 4%nat) = false ∧ uint64 3 ∧ uint64 0 ∧ loop_ok four ∧
  0 <= uv__next_timeout (snd (uv_timer_start 4%nat (Some 1%nat) 3 0 four))
    <= Z.min 3 INT_MAX.
Proof.
  assert (H3 : uint64 3) by (vm_compute; split; congruence).
  assert (H0 : uint64 0) by (vm_compute; split; congruence).
  refine (conj eq_refl (conj H3 (conj H0 (conj four_ok _)))).
  apply (uv__next_timeout_after_start 4%nat 1%nat 3 0 four eq_refl H3 H0 four_ok).
Defined.

Lemma uv__next_timeout_after_stop_four :
  loop_ok four ∧
  (uv__next_timeout (snd (uv_timer_stop 0%nat four)) ≠ -1 →
   uv__next_timeout four <= uv__next_timeout (snd (uv_timer_stop 0%nat four))).
Proof.
  split; [apply four_ok|].
  apply (uv__next_timeout_after_stop 0%nat four four_ok).
Defined.

Lemma uv__run_timers_in_order_four :
  passive idle ∧ loop_ok four_late ∧ time four_late < UINT64_MAX ∧
  ∃ fired l',
    uv__run_timers idle (S (length (timer_heap four_late))) four_late
      = Returned fired l' ∧
    ∀ i j a b, (i < j)%nat → fired !! i = Some a → fired !! j = Some b →
      timeout (timers four_late a) <= timeout (timers four_late b).
Proof.
  assert (Hmax : time four_late < UINT64_MAX) by (vm_compute; reflexivity).
  split_and!; [apply idle_quiet|apply four_late_ok|done|].
  destruct (uv__run_timers_in_order idle four_late (proj1 idle_quiet)
              four_late_ok Hmax) as (fired&l'&Hrun&Hord).
  exists fired, l'. split; [exact Hrun|].
  intros i j a b Hij Hi Hj. by destruct (Hord i j a b Hij Hi Hj) as [? _].
Defined.

Lemma uv__run_timers_then_blocks_four :
  passive idle ∧ loop_ok four_late ∧ time four_late < UINT64_MAX ∧
  ∃ fired l',
    uv__run_timers idle (S (length (timer_heap four_late))) four_late
      = Returned fired l' ∧
    (uv__next_timeout l' = -1 ∨ 0 < uv__next_timeout l').
Proof.
  assert (Hmax : time four_late < UINT64_MAX) by (vm_compute; reflexivity).
  split_and!; [apply idle_quiet|apply four_late_ok|done|].
  destruct (uv__run_timers_then_blocks idle four_late (proj1 idle_quiet)
              four_late_ok Hmax) as (fired&l'&Hrun&_&Hnext).
  exists fired, l'. split; [exact Hrun|exact Hnext].
Defined.

Lemma stopped_timer_does_not_fire_four :
  passive idle ∧ loop_ok four_late ∧ time four_late < UINT64_MAX ∧
  ∃ fired l',
    uv__run_timers idle (S (length (timer_heap four_late)))
      (snd (uv_timer_stop 3%nat four_late)) = Returned fired l' ∧
    (3%nat ∉ fired).
Proof.
  assert (Hmax : time four_late < UINT64_MAX) by (vm_compute; reflexivity).
  split_and!; [apply idle_quiet|apply four_late_ok|done|].
  destruct (stopped_timer_does_not_fire idle 3%nat four_late (proj1 idle_quiet)
              four_late_ok Hmax) as (_&fired&l'&Hrun&Hout&_).
  exists fired, l'. split; [exact Hrun|exact Hout].
Defined.

Lemma uv__run_timers_spares_later_timers_four :
  passive idle ∧ loop_ok four ∧ time four < UINT64_MAX ∧
  ∃ fired l',
    uv__run_timers idle (S (length (timer_heap four))) four = Returned fired l' ∧
    ∀ k, k ∉ due four →
      timeout (timers l' k) = timeout (timers four k).
Proof.
  assert (Hmax : time four < UINT64_MAX) by (vm_compute; reflexivity).
  split_and!; [apply idle_quiet|apply four_ok|done|].
  destruct (uv__run_timers_spares_later_timers idle four (proj1 idle_quiet)
              four_ok Hmax) as (fired&l'&Hrun&Hk).
  exists fired, l'. split; [exact Hrun|].
  intros k Hd. by destruct (Hk k Hd) as (_&_&?&_).
Defined.

Lemma uv__run_timers_retires_one_shots_four :
  quiet idle ∧ loop_ok four_late ∧ time four_late < UINT64_MAX ∧
  ∃ fired l',
    uv__run_timers idle (S (length (timer_heap four_late))) four_late
      = Returned fired l' ∧
    ∀ k, k ∈ due four_late → repeat (timers four_late k) = 0 →
      active (timers l' k) = false.
Proof.
  assert (Hmax : time four_late < UINT64_MAX) by (vm_compute; reflexivity).
  split_and!; [apply idle_quiet|apply four_late_ok|done|].
  destruct (uv__run_timers_retires_one_shots idle four_late idle_quiet
              four_late_ok Hmax) as (fired&l'&Hrun&Hk).
  exists fired, l'. split; [exact Hrun|].
  intros k Hd Hr. by destruct (Hk k Hd Hr) as (_&?&_).
Defined.

Lemma loop_ok_kept_four :
  loop_ok four ∧ ∀ h, loop_ok (snd (uv_timer_again h four)).
Proof.
  split; [apply four_ok|]. apply (loop_ok_kept four four_ok).
Defined.

Lemma uv__run_timers_reentrant_four :
  (∀ c h l0, loop_ok l0 → loop_ok (restarting c h l0)) ∧ loop_ok four_late ∧
  uv__run_timers restarting 5 four_late ≠ NullCall.
Proof.
  split_and!; [apply restarting_ok|apply four_late_ok|].
  apply (uv__run_timers_reentrant restarting four_late 5 restarting_ok four_late_ok).
Defined.
